(** * Iterative question-answering workflow: router, steps, parser, session store

    A shallow embedding of [graph/workflow.py] and [graph/memory.py].

    Python values are dynamically typed.  The workflow state is the
    [QAState] typed dictionary of the source (every key optional); the only
    untyped data is the evaluation record, which comes out of [json.loads].
    Exceptions are results: a function that can raise returns an [outcome]. *)

From Stdlib Require Import ZArith List String Ascii Bool Lia.
From Stdlib Require Import DecimalString Sorting.Sorted Sorting.Permutation.
Import ListNotations.

Local Open Scope list_scope.
Local Open Scope string_scope.

Set Warnings "-register-all".

(** ** Python values and exceptions *)

(** The values [json.loads] builds, floats left out: [None], [bool], [int],
    [str], [list] and [dict] (string keys, insertion order kept). *)
Inductive pyval : Type :=
| PNone
| PBool (b : bool)
| PInt (z : Z)
| PStr (s : string)
| PList (l : list pyval)
| PDict (d : list (string * pyval)).

Definition pydict : Type := list (string * pyval).

Inductive exn : Type :=
| KeyError          (* d[k] on a missing key *)
| TypeError         (* unsupported operand or argument type *)
| AttributeError    (* method looked up on a value that lacks it *)
| ModelSetupError   (* get_llm(...) raised *)
| ModelCallError    (* llm.invoke(...) raised *)
| SearchSetupError. (* TavilySearchResults(...) raised *)

Inductive outcome (A : Type) : Type :=
| Ret (a : A)
| Raise (e : exn).

Arguments Ret {A} a.
Arguments Raise {A} e.

Definition bind {A B : Type} (m : outcome A) (k : A -> outcome B) : outcome B :=
  match m with
  | Ret a => k a
  | Raise e => Raise e
  end.

Notation "x <- m ;; k" := (bind m (fun x => k))
  (at level 61, m at next level, right associativity).

(** [bool(v)] *)
Definition truthy (v : pyval) : bool :=
  match v with
  | PNone => false
  | PBool b => b
  | PInt z => negb (z =? 0)%Z
  | PStr s => negb (s =? "")
  | PList l => match l with [] => false | _ :: _ => true end
  | PDict d => match d with [] => false | _ :: _ => true end
  end.

(** [d.get(k)] as an option, [k in d], [d.get(k, default)] *)
Fixpoint dict_get (d : pydict) (k : string) : option pyval :=
  match d with
  | [] => None
  | (k', v) :: d' => if k' =? k then Some v else dict_get d' k
  end.

Definition dict_has (d : pydict) (k : string) : bool :=
  match dict_get d k with Some _ => true | None => false end.

Definition get_default (d : pydict) (k : string) (default : pyval) : pyval :=
  match dict_get d k with Some v => v | None => default end.

(** [d[k] = v]: an existing key keeps its place *)
Fixpoint dict_set (d : pydict) (k : string) (v : pyval) : pydict :=
  match d with
  | [] => [(k, v)]
  | (k', v') :: d' =>
      if k' =? k then (k', v) :: d' else (k', v') :: dict_set d' k v
  end.

(** The integer a value stands for in a comparison with an [int]:
    [bool] is a subclass of [int]. *)
Definition as_int (v : pyval) : option Z :=
  match v with
  | PInt z => Some z
  | PBool b => Some (if b then 1 else 0)%Z
  | _ => None
  end.

(** [v >= n] for an [int] constant [n]; every other operand type raises. *)
Definition py_ge_int (v : pyval) (n : Z) : outcome bool :=
  match as_int v with
  | Some z => Ret (n <=? z)%Z
  | None => Raise TypeError
  end.

(** [bool(s)] for an [Optional[str]] read with [state.get(key)] *)
Definition truthy_str (s : option (option string)) : bool :=
  match s with
  | Some (Some s) => negb (s =? "")
  | _ => false
  end.

(** ** The workflow state *)

(** [class QAState(TypedDict, total=False)]: the outer [option] is the
    presence of the key, an inner one the [Optional] of the declared type. *)
Record QAState : Type := mkQAState {
  question : option string;
  draft_answer : option (option string);
  evaluation : option (option pydict);
  final_answer : option (option string);
  reflections : option (list string);
  search_results : option (option string);
  iteration_count : option Z;
  max_iterations : option Z
}.

Definition empty_state : QAState :=
  mkQAState None None None None None None None None.

Definition or_else {A : Type} (new old : option A) : option A :=
  match new with Some _ => new | None => old end.

(** The graph merges the patch a node returns into the running state: a key
    of the patch replaces the state's, the others stay. *)
Definition merge (state patch : QAState) : QAState :=
  {| question := or_else (question patch) (question state);
     draft_answer := or_else (draft_answer patch) (draft_answer state);
     evaluation := or_else (evaluation patch) (evaluation state);
     final_answer := or_else (final_answer patch) (final_answer state);
     reflections := or_else (reflections patch) (reflections state);
     search_results := or_else (search_results patch) (search_results state);
     iteration_count := or_else (iteration_count patch) (iteration_count state);
     max_iterations := or_else (max_iterations patch) (max_iterations state) |}.

(** ** Router *)

Inductive route : Type := search | reflect | finalize.

Definition should_continue (state : QAState) : outcome route :=
  let evaluation := match evaluation state with Some e => e | None => Some [] end in
  let iteration_count := match iteration_count state with Some n => n | None => 0%Z end in
  let max_iterations := match max_iterations state with Some n => n | None => 3%Z end in
  if (max_iterations <=? iteration_count)%Z then Ret finalize
  else
    match evaluation with
    | None => Raise AttributeError
    | Some evaluation =>
        acceptable <-
          (if truthy (get_default evaluation "is_acceptable" (PBool false))
           then py_ge_int (get_default evaluation "score" (PInt 0)) 7
           else Ret false) ;;
        if acceptable then Ret finalize
        else if truthy (get_default evaluation "needs_search" (PBool false))
                && negb (truthy_str (search_results state))
        then Ret search
        else Ret reflect
    end.

(** ** Text helpers *)

Definition newline : string := String (ascii_of_nat 10) "".

Definition dquote : ascii := ascii_of_nat 34.

(** Texts with double quotes are written with apostrophes and converted. *)
Fixpoint dq (s : string) : string :=
  match s with
  | "" => ""
  | String c s' => String (if Ascii.eqb c "'" then dquote else c) (dq s')
  end.

(** [str(n)] for an [int] *)
Definition str_of_Z (z : Z) : string := NilZero.string_of_int (Z.to_int z).

(** [s.startswith(p)], giving what follows the prefix *)
Fixpoint strip_prefix (p s : string) : option string :=
  match p with
  | "" => Some s
  | String a p' =>
      match s with
      | "" => None
      | String b s' => if Ascii.eqb a b then strip_prefix p' s' else None
      end
  end.

(** [k in s] for strings *)
Fixpoint str_contains (k s : string) : bool :=
  match strip_prefix k s with
  | Some _ => true
  | None => match s with "" => false | String _ s' => str_contains k s' end
  end.

(** ** The search step *)

(** One element of what the search collaborator returns: a mapping with
    optional [content] and [url], or something that has no [get]. *)
Inductive search_item : Type :=
| HitDict (content url : option string)
| HitOther.

(** What the search collaborator does when the step runs. *)
Inductive search_reply : Type :=
| SearchSetupFails
| SearchInvokeFails
| SearchReturns (results : list search_item).

Definition format_result (idx : Z) (result : search_item) : outcome string :=
  match result with
  | HitDict content url =>
      Ret (str_of_Z idx ++ ". "
             ++ match content with Some c => c | None => "" end
             ++ newline ++ "Source: "
             ++ match url with Some u => u | None => "N/A" end)
  | HitOther => Raise AttributeError
  end.

(** [for idx, result in enumerate(results, idx): formatted_results.append(...)] *)
Fixpoint format_results (idx : Z) (results : list search_item) : outcome (list string) :=
  match results with
  | [] => Ret []
  | result :: results' =>
      line <- format_result idx result ;;
      rest <- format_results (idx + 1) results' ;;
      Ret (line :: rest)
  end.

Definition search_unavailable : string := "Search unavailable".

Definition search_patch (s : string) : QAState :=
  {| question := None; draft_answer := None; evaluation := None;
     final_answer := None; reflections := None;
     search_results := Some (Some s);
     iteration_count := None; max_iterations := None |}.

Definition search_tool_node (reply : search_reply) (state : QAState) : outcome QAState :=
  match reply with
  | SearchSetupFails => Raise SearchSetupError
  | _ =>
      match question state with
      | None => Raise KeyError
      | Some _ =>
          (* try: ... except Exception: *)
          match reply with
          | SearchReturns results =>
              match format_results 1 results with
              | Ret formatted_results =>
                  Ret (search_patch (String.concat (newline ++ newline) formatted_results))
              | Raise _ => Ret (search_patch search_unavailable)
              end
          | _ => Ret (search_patch search_unavailable)
          end
      end
  end.

(** ** The evaluation parser *)

(** [\s] of the [re] module on [str] patterns, for code points below 256:
    tab to carriage return, the four separators 28 to 31, space, NEL and
    the no-break space. *)
Definition is_space (c : ascii) : bool :=
  let n := nat_of_ascii c in
  ((9 <=? n) && (n <=? 13) || (28 <=? n) && (n <=? 32)
   || (n =? 133) || (n =? 160))%nat.

(** [\s*]: what is left after the longest run of white space *)
Fixpoint skip_space (s : string) : string :=
  match s with
  | "" => ""
  | String c s' => if is_space c then skip_space s' else s
  end.

Definition fence : string := "```".

(** The first pattern of the source, kept as text for reference. *)
Definition fenced_pattern : string := "```(?:json)?\s*(\{.*?\})\s*```".

(** [\s*```] right here *)
Definition closes_fence (s : string) : bool :=
  match strip_prefix fence (skip_space s) with
  | Some _ => true
  | None => false
  end.

(** [.*?\}\s*```] with [re.DOTALL], after the opening brace: the lazy star
    stops at the first closing brace from which the rest of the pattern
    matches.  The result is the text up to and including that brace. *)
Fixpoint fence_body (s : string) : option string :=
  match s with
  | "" => None
  | String c s' =>
      if Ascii.eqb c "}" && closes_fence s' then Some "}"
      else match fence_body s' with
           | Some body => Some (String c body)
           | None => None
           end
  end.

(** [\s*(\{.*?\})\s*```] right here, giving group 1.  The greedy [\s*] has
    one way to go on: the next character must be a brace, which is not
    white space. *)
Definition fence_open (s : string) : option string :=
  match skip_space s with
  | String c s' =>
      if Ascii.eqb c "{" then
        match fence_body s' with
        | Some body => Some (String "{" body)
        | None => None
        end
      else None
  | "" => None
  end.

(** [```(?:json)?\s*(\{.*?\})\s*```] matched at the very start of [s]: the
    optional group is tried first with [json], then without. *)
Definition fence_at (s : string) : option string :=
  match strip_prefix fence s with
  | None => None
  | Some s1 =>
      match
        match strip_prefix "json" s1 with
        | Some s2 => fence_open s2
        | None => None
        end
      with
      | Some g => Some g
      | None => fence_open s1
      end
  end.

(** [re.search(fenced_pattern, text, re.DOTALL)], giving [group(1)] of the
    leftmost match. *)
Fixpoint search_fenced (text : string) : option string :=
  match fence_at text with
  | Some g => Some g
  | None =>
      match text with
      | "" => None
      | String _ text' => search_fenced text'
      end
  end.

Definition is_brace (c : ascii) : bool := Ascii.eqb c "{" || Ascii.eqb c "}".

(** The second pattern of the source, kept as text for reference. *)
Definition braces_pattern : string := "\{[^{}]*(?:\{[^{}]*\}[^{}]*)*\}".

(** [braces_pattern] after its opening brace: runs of characters other than
    braces, with nested pairs that hold no brace; [inner] tells whether the
    scan is inside a nested pair.  Every star is followed by a
    brace in the pattern, so the greedy match is the only one. *)
Fixpoint braces_body (inner : bool) (s : string) : option string :=
  match s with
  | "" => None
  | String c s' =>
      if Ascii.eqb c "}" then
        if inner then
          match braces_body false s' with
          | Some body => Some (String c body)
          | None => None
          end
        else Some "}"
      else if Ascii.eqb c "{" then
        if inner then None
        else match braces_body true s' with
             | Some body => Some (String c body)
             | None => None
             end
      else match braces_body inner s' with
           | Some body => Some (String c body)
           | None => None
           end
  end.

Definition braces_at (s : string) : option string :=
  match s with
  | String c s' =>
      if Ascii.eqb c "{" then
        match braces_body false s' with
        | Some body => Some (String "{" body)
        | None => None
        end
      else None
  | "" => None
  end.

(** [re.search(braces_pattern, text, re.DOTALL)], giving [group(0)] of the
    leftmost match. *)
Fixpoint search_braces (text : string) : option string :=
  match braces_at text with
  | Some g => Some g
  | None =>
      match text with
      | "" => None
      | String _ text' => search_braces text'
      end
  end.

(** The [json] module is a library: [json_loads s] is [Some v] when
    [json.loads(s)] returns [v] and [None] when it raises. *)
Class JsonLib : Type := json_loads : string -> option pyval.

Section Workflow.

Context `{JsonLib}.

(** [try: return json.loads(candidate) except: pass] *)
Definition try_loads (candidate : option string) : option pyval :=
  match candidate with
  | Some s => json_loads s
  | None => None
  end.

(** The function returns Python's [None] when nothing parses, and also when
    the whole text is the JSON literal [null]. *)
Definition extract_json_from_text (text : string) : pyval :=
  match try_loads (search_fenced text) with
  | Some v => v
  | None =>
      match try_loads (search_braces text) with
      | Some v => v
      | None =>
          match json_loads text with
          | Some v => v
          | None => PNone
          end
      end
  end.

(** ** The steps that call the language model *)

(** What the model collaborator does when a step runs: [get_llm] raises,
    [llm.invoke] raises, or the call returns [response.content].  The prompt
    a step builds only flows into the collaborator, so the embedding keeps
    of it the state keys it subscripts (a missing one raises [KeyError]). *)
Inductive llm_reply : Type :=
| ModelSetupFails
| ModelCallFails
| ModelReturns (content : string).

(** The patch [generate_answer_node] returns. *)
Definition draft_patch (draft : string) (count : Z) : QAState :=
  {| question := None; draft_answer := Some (Some draft);
     evaluation := None; final_answer := None;
     reflections := None; search_results := None;
     iteration_count := Some count; max_iterations := None |}.

(** The patch [finalize_answer_node] returns. *)
Definition final_patch (final : string) : QAState :=
  {| question := None; draft_answer := None; evaluation := None;
     final_answer := Some (Some final);
     reflections := None; search_results := None;
     iteration_count := None; max_iterations := None |}.

Definition generate_answer_node (reply : llm_reply) (state : QAState) : outcome QAState :=
  match reply with
  | ModelSetupFails => Raise ModelSetupError
  | _ =>
      match question state with
      | None => Raise KeyError
      | Some _ =>
          match reply with
          | ModelReturns draft =>
              Ret (draft_patch draft
                     (match iteration_count state with
                      | Some n => n
                      | None => 0
                      end + 1)%Z)
          | _ => Raise ModelCallError
          end
      end
  end.

(** [k in v] *)
Definition py_contains (v : pyval) (k : string) : outcome bool :=
  match v with
  | PDict d => Ret (dict_has d k)
  | PList l =>
      Ret (existsb (fun x => match x with PStr s => s =? k | _ => false end) l)
  | PStr s => Ret (str_contains k s)
  | _ => Raise TypeError
  end.

(** [all(k in v for k in ["score", "is_acceptable"])] *)
Definition has_required_keys (v : pyval) : outcome bool :=
  has_score <- py_contains v "score" ;;
  if has_score then py_contains v "is_acceptable" else Ret false.

Definition evaluation_patch (evaluation : pydict) : QAState :=
  {| question := None; draft_answer := None;
     evaluation := Some (Some evaluation);
     final_answer := None; reflections := None; search_results := None;
     iteration_count := None; max_iterations := None |}.

(** The record built in the [else] branch of [evaluate_answer_node]. *)
Definition fallback_evaluation (iteration : Z) (draft_len : nat) : pydict :=
  let fallback_score := Z.min 10 (Z.max 5 (Z.of_nat draft_len / 200)) in
  [ ("score", PInt fallback_score);
    ("is_acceptable", PBool ((2 <=? iteration)%Z || (7 <=? fallback_score)%Z));
    ("strengths", PList [PStr "Answer provided"]);
    ("weaknesses",
      PList (if (7 <=? fallback_score)%Z then [] else [PStr "Could be more detailed"]));
    ("suggestions",
      PList (if (7 <=? fallback_score)%Z then [] else [PStr "Add more examples"]));
    ("needs_search", PBool false) ].

Definition evaluate_answer_node (reply : llm_reply) (state : QAState) : outcome QAState :=
  match reply with
  | ModelSetupFails => Raise ModelSetupError
  | _ =>
      match question state, draft_answer state with
      | None, _ | _, None => Raise KeyError
      | Some _, Some draft_answer =>
          match reply with
          | ModelReturns content =>
              let evaluation := extract_json_from_text content in
              usable <-
                (if truthy evaluation then has_required_keys evaluation
                 else Ret false) ;;
              if usable then
                (* the two prints subscript the value with a string *)
                match evaluation with
                | PDict d => Ret (evaluation_patch d)
                | _ => Raise TypeError
                end
              else
                let iteration :=
                  match iteration_count state with Some n => n | None => 1%Z end in
                match draft_answer with
                | None => Raise TypeError (* len(None) *)
                | Some draft =>
                    Ret (evaluation_patch
                           (fallback_evaluation iteration (String.length draft)))
                end
          | _ => Raise ModelCallError
          end
      end
  end.

(** [sep.join(v)]: the elements of a list must be strings, a string gives
    its characters, a dict its keys; nothing else can be iterated. *)
Fixpoint str_items (l : list pyval) : outcome (list string) :=
  match l with
  | [] => Ret []
  | PStr s :: l' => rest <- str_items l' ;; Ret (s :: rest)
  | _ :: _ => Raise TypeError
  end.

Definition py_join (sep : string) (v : pyval) : outcome string :=
  match v with
  | PList l => items <- str_items l ;; Ret (String.concat sep items)
  | PStr s =>
      Ret (String.concat sep (map (fun c => String c "") (list_ascii_of_string s)))
  | PDict d => Ret (String.concat sep (map fst d))
  | _ => Raise TypeError
  end.

Definition reflections_patch (l : list string) : QAState :=
  {| question := None; draft_answer := None; evaluation := None;
     final_answer := None; reflections := Some l; search_results := None;
     iteration_count := None; max_iterations := None |}.

Definition reflection_node (state : QAState) : outcome QAState :=
  let reflections := match reflections state with Some l => l | None => [] end in
  let new_reflection :=
    "Iteration "
      ++ str_of_Z (match iteration_count state with Some n => n | None => 0%Z end)
      ++ ": " in
  match (match evaluation state with Some e => e | None => Some [] end) with
  | None => Raise AttributeError
  | Some evaluation =>
      let weaknesses := get_default evaluation "weaknesses" PNone in
      let suggestions := get_default evaluation "suggestions" PNone in
      new_reflection <-
        (if truthy weaknesses
         then joined <- py_join ", " weaknesses ;;
              Ret (new_reflection ++ "Address: " ++ joined ++ ". ")
         else Ret new_reflection) ;;
      new_reflection <-
        (if truthy suggestions
         then joined <- py_join ", " suggestions ;;
              Ret (new_reflection ++ "Improve: " ++ joined)
         else Ret new_reflection) ;;
      let new_reflection :=
        if negb (truthy weaknesses) && negb (truthy suggestions)
        then new_reflection ++ "Continue improving clarity and completeness"
        else new_reflection in
      Ret (reflections_patch (reflections ++ [new_reflection])%list)
  end.

Definition finalize_answer_node (reply : llm_reply) (state : QAState) : outcome QAState :=
  match reply with
  | ModelSetupFails => Raise ModelSetupError
  | _ =>
      match question state, draft_answer state with
      | None, _ | _, None => Raise KeyError
      | Some _, Some _ =>
          match reply with
          | ModelReturns final => Ret (final_patch final)
          | _ => Raise ModelCallError
          end
      end
  end.

(** ** The compiled graph *)

Inductive node : Type :=
| node_generate_answer
| node_search
| node_evaluate
| node_reflect
| node_finalize.

(** The mapping given to [add_conditional_edges]. *)
Definition node_of_route (r : route) : node :=
  match r with
  | search => node_search
  | reflect => node_reflect
  | finalize => node_finalize
  end.

(** The collaborators of one run: what the [n]-th model call and the [n]-th
    search do. *)
Record World : Type := mkWorld {
  model : nat -> llm_reply;
  searcher : nat -> search_reply
}.

Record config : Type := mkConfig {
  at_node : node;
  state_of : QAState;
  model_calls : nat;
  search_calls : nat
}.

Inductive step_result : Type :=
| Next (c : config)
| End (final : QAState)
| Abort (e : exn).

Definition after_model (c : config) (n : node) (patch : QAState) : config :=
  {| at_node := n; state_of := merge (state_of c) patch;
     model_calls := S (model_calls c); search_calls := search_calls c |}.

(** One super-step: run the node, merge its patch, follow the edge. *)
Definition step (w : World) (c : config) : step_result :=
  match at_node c with
  | node_generate_answer =>
      match generate_answer_node (model w (model_calls c)) (state_of c) with
      | Ret patch => Next (after_model c node_evaluate patch)
      | Raise e => Abort e
      end
  | node_evaluate =>
      match evaluate_answer_node (model w (model_calls c)) (state_of c) with
      | Ret patch =>
          match should_continue (merge (state_of c) patch) with
          | Ret r => Next (after_model c (node_of_route r) patch)
          | Raise e => Abort e
          end
      | Raise e => Abort e
      end
  | node_search =>
      match search_tool_node (searcher w (search_calls c)) (state_of c) with
      | Ret patch =>
          Next {| at_node := node_generate_answer;
                  state_of := merge (state_of c) patch;
                  model_calls := model_calls c;
                  search_calls := S (search_calls c) |}
      | Raise e => Abort e
      end
  | node_reflect =>
      match reflection_node (state_of c) with
      | Ret patch =>
          Next {| at_node := node_generate_answer;
                  state_of := merge (state_of c) patch;
                  model_calls := model_calls c;
                  search_calls := search_calls c |}
      | Raise e => Abort e
      end
  | node_finalize =>
      match finalize_answer_node (model w (model_calls c)) (state_of c) with
      | Ret patch => End (merge (state_of c) patch)
      | Raise e => Abort e
      end
  end.

(** How a run ends: it reaches [END] with the final state, a node raises,
    or the steps allowed are used up.  [fuel] bounds the super-steps of a
    run as the graph's [recursion_limit] does; a run that needs more ends
    in [OutOfFuel] and is no terminated run.  With the ending comes the
    trace: the nodes that ran, in order. *)
Inductive ending : Type :=
| Finished (final : QAState)
| Aborted (e : exn)
| OutOfFuel.

Definition run_result : Type := (ending * list node)%type.

Fixpoint run (fuel : nat) (w : World) (c : config) : run_result :=
  match fuel with
  | O => (OutOfFuel, [])
  | S fuel' =>
      match step w c with
      | Next c' =>
          let (e, trace) := run fuel' w c' in (e, at_node c :: trace)
      | End final => (Finished final, [at_node c])
      | Abort e => (Aborted e, [at_node c])
      end
  end.

(** [workflow.invoke(initial_state)]: the graph is entered at
    [generate_answer]. *)
Definition invoke (fuel : nat) (w : World) (initial_state : QAState) : run_result :=
  run fuel w {| at_node := node_generate_answer; state_of := initial_state;
                model_calls := 0; search_calls := 0 |}.

End Workflow.

(** ** A reference decoder for the JSON library

    [python_json] follows the decoder of Python's [json] module on the part
    of JSON made of objects, arrays, strings with the one-letter escapes,
    integers and the three literals.  Texts that use what it leaves out
    (fractions and exponents, [\u] escapes, [NaN] and [Infinity]) are
    answered [None]: the decoder is used to run the code on concrete texts
    of the part it covers, and the general results hold for every
    [JsonLib]. *)
Module Json.

Definition is_ws (c : ascii) : bool :=
  let n := nat_of_ascii c in
  ((n =? 32) || (n =? 9) || (n =? 10) || (n =? 13))%nat.

Fixpoint skip_ws (s : string) : string :=
  match s with
  | "" => ""
  | String c s' => if is_ws c then skip_ws s' else s
  end.

Definition digit_of (c : ascii) : option Z :=
  let n := nat_of_ascii c in
  if ((48 <=? n) && (n <=? 57))%nat then Some (Z.of_nat (n - 48)) else None.

(** [[0-9]*] read as a number continuing [acc] *)
Fixpoint digits (acc : Z) (s : string) : Z * string :=
  match s with
  | "" => (acc, "")
  | String c s' =>
      match digit_of c with
      | Some d => digits (10 * acc + d) s'
      | None => (acc, s)
      end
  end.

Definition starts_with_digit (s : string) : bool :=
  match s with
  | String c _ => match digit_of c with Some _ => true | None => false end
  | "" => false
  end.

(** A fraction or an exponent follows: the number is a float. *)
Definition float_follows (s : string) : bool :=
  match s with
  | String c s' =>
      if Ascii.eqb c "." then starts_with_digit s'
      else if Ascii.eqb c "e" || Ascii.eqb c "E" then
        match s' with
        | String d s'' =>
            if Ascii.eqb d "+" || Ascii.eqb d "-" then starts_with_digit s''
            else starts_with_digit s'
        | "" => false
        end
      else false
  | "" => false
  end.

(** The integer part: a lone zero, or a digit from 1 to 9 and more digits *)
Definition natural (s : string) : option (Z * string) :=
  match s with
  | String c s' =>
      match digit_of c with
      | Some 0%Z => Some (0%Z, s')
      | Some d => Some (digits d s')
      | None => None
      end
  | "" => None
  end.

Definition number (s : string) : option (pyval * string) :=
  let '(negative, s1) :=
    match s with
    | String c s' => if Ascii.eqb c "-" then (true, s') else (false, s)
    | "" => (false, s)
    end in
  match natural s1 with
  | Some (n, rest) =>
      if float_follows rest then None
      else Some (PInt (if negative then - n else n)%Z, rest)
  | None => None
  end.

Definition unescape (c : ascii) : option ascii :=
  if Ascii.eqb c dquote then Some dquote
  else if Ascii.eqb c "\" then Some "\"%char
  else if Ascii.eqb c "/" then Some "/"%char
  else if Ascii.eqb c "b" then Some (ascii_of_nat 8)
  else if Ascii.eqb c "f" then Some (ascii_of_nat 12)
  else if Ascii.eqb c "n" then Some (ascii_of_nat 10)
  else if Ascii.eqb c "r" then Some (ascii_of_nat 13)
  else if Ascii.eqb c "t" then Some (ascii_of_nat 9)
  else None.

(** [scanstring] in strict mode, after the opening quote *)
Fixpoint scanstring (s : string) : option (string * string) :=
  match s with
  | "" => None
  | String c s' =>
      if Ascii.eqb c dquote then Some ("", s')
      else if Ascii.eqb c "\" then
        match s' with
        | String e s'' =>
            match unescape e, scanstring s'' with
            | Some ch, Some (text, rest) => Some (String ch text, rest)
            | _, _ => None
            end
        | "" => None
        end
      else if (nat_of_ascii c <? 32)%nat then None
      else match scanstring s' with
           | Some (text, rest) => Some (String c text, rest)
           | None => None
           end
  end.

Definition literal (name : string) (v : pyval) (s : string) : option (pyval * string) :=
  match strip_prefix name s with
  | Some rest => Some (v, rest)
  | None => None
  end.

Fixpoint scan_once (fuel : nat) (s : string) : option (pyval * string) :=
  match fuel with
  | O => None
  | S fuel' =>
      match s with
      | "" => None
      | String c s' =>
          if Ascii.eqb c dquote then
            match scanstring s' with
            | Some (text, rest) => Some (PStr text, rest)
            | None => None
            end
          else if Ascii.eqb c "{" then
            match skip_ws s' with
            | String c1 s1 =>
                if Ascii.eqb c1 "}" then Some (PDict [], s1)
                else members fuel' (String c1 s1) []
            | "" => None
            end
          else if Ascii.eqb c "[" then
            match skip_ws s' with
            | String c1 s1 =>
                if Ascii.eqb c1 "]" then Some (PList [], s1)
                else elements fuel' (String c1 s1) []
            | "" => None
            end
          else if Ascii.eqb c "n" then literal "null" PNone s
          else if Ascii.eqb c "t" then literal "true" (PBool true) s
          else if Ascii.eqb c "f" then literal "false" (PBool false) s
          else number s
      end
  end

(** the pairs of an object, from the quote of a key on *)
with members (fuel : nat) (s : string) (pairs : pydict) : option (pyval * string) :=
  match fuel with
  | O => None
  | S fuel' =>
      match s with
      | String q s1 =>
          if Ascii.eqb q dquote then
            match scanstring s1 with
            | Some (key, s2) =>
                match skip_ws s2 with
                | String colon s3 =>
                    if Ascii.eqb colon ":" then
                      match scan_once fuel' (skip_ws s3) with
                      | Some (value, s4) =>
                          let pairs := dict_set pairs key value in
                          match skip_ws s4 with
                          | String d s5 =>
                              if Ascii.eqb d "}" then Some (PDict pairs, s5)
                              else if Ascii.eqb d "," then members fuel' (skip_ws s5) pairs
                              else None
                          | "" => None
                          end
                      | None => None
                      end
                    else None
                | "" => None
                end
            | None => None
            end
          else None
      | "" => None
      end
  end

(** the values of an array *)
with elements (fuel : nat) (s : string) (values : list pyval) : option (pyval * string) :=
  match fuel with
  | O => None
  | S fuel' =>
      match scan_once fuel' s with
      | Some (value, s1) =>
          let values := (values ++ [value])%list in
          match skip_ws s1 with
          | String d s2 =>
              if Ascii.eqb d "]" then Some (PList values, s2)
              else if Ascii.eqb d "," then elements fuel' (skip_ws s2) values
              else None
          | "" => None
          end
      | None => None
      end
  end.

(** [json.loads(s)]: one value, white space around it, nothing else. *)
Definition loads (s : string) : option pyval :=
  match scan_once (2 * String.length s + 2) (skip_ws s) with
  | Some (v, rest) => match skip_ws rest with "" => Some v | _ => None end
  | None => None
  end.

End Json.

Definition python_json : JsonLib := Json.loads.

(** ** The session store ([graph/memory.py]) *)

(** The [state_snapshot] of a logged transition. *)
Record StateSnapshot : Type := mkSnapshot {
  has_draft : bool;
  has_evaluation : bool;
  has_search : bool;
  reflection_count : nat;
  evaluation_score : pyval
}.

Record StateEntry : Type := mkEntry {
  entry_timestamp : string;
  entry_node : string;
  entry_iteration : Z;
  state_snapshot : StateSnapshot
}.

(** The [metadata] dictionary: [create_session] writes the three keys, the
    record [_load_session] makes up for an unknown id has none. *)
Record Metadata : Type := mkMetadata {
  total_iterations : option Z;
  search_used : option bool;
  meta_reflection_count : option nat
}.

Record CompleteState : Type := mkComplete {
  complete_question : option string;
  complete_final_answer : option (option string);
  complete_iterations : option Z;
  complete_reflections : list string;
  complete_evaluation : option (option pydict)
}.

(** One element of the [sessions] array.  An outer [option] is the presence
    of the key. *)
Record Session : Type := mkSession {
  s_session_id : string;
  s_timestamp : option string;
  s_question : option string;
  s_states : list StateEntry;
  s_final_answer : option (option string);
  s_metadata : Metadata;
  s_complete_state : option CompleteState
}.

(** A [MemoryManager] and the file it owns: [session_file] is [None] while
    [sessions.json] does not exist, otherwise the array it holds. *)
Record MemoryManager : Type := mkMemory {
  session_file : option (list Session);
  current_session_id : option string
}.

(** [json.load(f).get("sessions", [])], or [[]] without a file *)
Definition read_sessions (self : MemoryManager) : list Session :=
  match session_file self with
  | Some sessions => sessions
  | None => []
  end.

(** The loop of [_save_session]: the first session with the same id is
    replaced; [None] when no session has it. *)
Fixpoint replace_session (all_sessions : list Session) (session_data : Session)
  : option (list Session) :=
  match all_sessions with
  | [] => None
  | session :: rest =>
      if s_session_id session =? s_session_id session_data
      then Some (session_data :: rest)
      else match replace_session rest session_data with
           | Some rest' => Some (session :: rest')
           | None => None
           end
  end.

Definition _save_session (session_data : Session) (self : MemoryManager) : MemoryManager :=
  let all_sessions := read_sessions self in
  {| session_file :=
       Some (match replace_session all_sessions session_data with
             | Some updated => updated
             | None => (all_sessions ++ [session_data])%list
             end);
     current_session_id := current_session_id self |}.

Fixpoint find_session (sessions : list Session) (session_id : string) : option Session :=
  match sessions with
  | [] => None
  | session :: rest =>
      if s_session_id session =? session_id then Some session
      else find_session rest session_id
  end.

Definition _load_session (session_id : string) (self : MemoryManager) : Session :=
  match find_session (read_sessions self) session_id with
  | Some session => session
  | None =>
      {| s_session_id := session_id; s_timestamp := None; s_question := None;
         s_states := []; s_final_answer := None;
         s_metadata := mkMetadata None None None;
         s_complete_state := None |}
  end.

(** [now_id] is [datetime.now().strftime("%Y%m%d_%H%M%S")] and [now_iso] the
    later [datetime.now().isoformat()]: the clock is an input. *)
Definition create_session (now_id now_iso : string) (question : string)
    (self : MemoryManager) : string * MemoryManager :=
  let self := {| session_file := session_file self;
                 current_session_id := Some now_id |} in
  let session_data :=
    {| s_session_id := now_id;
       s_timestamp := Some now_iso;
       s_question := Some question;
       s_states := [];
       s_final_answer := Some None;
       s_metadata := mkMetadata (Some 0%Z) (Some false) (Some 0%nat);
       s_complete_state := None |} in
  (now_id, _save_session session_data self).

(** [not self.current_session_id] *)
Definition no_current_session (self : MemoryManager) : bool :=
  match current_session_id self with
  | Some id => id =? ""
  | None => true
  end.

Definition current_id (self : MemoryManager) : string :=
  match current_session_id self with Some id => id | None => "" end.

Definition log_state (now_iso : string) (node_name : string) (state : QAState)
    (self : MemoryManager) : outcome MemoryManager :=
  if no_current_session self then Ret self
  else
    let session_data := _load_session (current_id self) self in
    let iteration := match iteration_count state with Some n => n | None => 0%Z end in
    let n_reflections :=
      List.length (match reflections state with Some l => l | None => [] end) in
    let has_search := truthy_str (search_results state) in
    match (match evaluation state with Some e => e | None => Some [] end) with
    | None => Raise AttributeError
    | Some evaluation =>
        let state_entry :=
          {| entry_timestamp := now_iso;
             entry_node := node_name;
             entry_iteration := iteration;
             state_snapshot :=
               {| has_draft := truthy_str (draft_answer state);
                  has_evaluation := truthy (PDict evaluation);
                  has_search := has_search;
                  reflection_count := n_reflections;
                  evaluation_score := get_default evaluation "score" PNone |} |} in
        Ret (_save_session
               {| s_session_id := s_session_id session_data;
                  s_timestamp := s_timestamp session_data;
                  s_question := s_question session_data;
                  s_states := (s_states session_data ++ [state_entry])%list;
                  s_final_answer := s_final_answer session_data;
                  s_metadata := mkMetadata (Some iteration) (Some has_search)
                                           (Some n_reflections);
                  s_complete_state := s_complete_state session_data |}
               self)
    end.

Definition save_final_answer (answer : string) (full_state : QAState)
    (self : MemoryManager) : MemoryManager :=
  if no_current_session self then self
  else
    let session_data := _load_session (current_id self) self in
    _save_session
      {| s_session_id := s_session_id session_data;
         s_timestamp := s_timestamp session_data;
         s_question := s_question session_data;
         s_states := s_states session_data;
         s_final_answer := Some (Some answer);
         s_metadata := s_metadata session_data;
         s_complete_state :=
           Some {| complete_question := question full_state;
                   complete_final_answer := final_answer full_state;
                   complete_iterations := iteration_count full_state;
                   complete_reflections :=
                     match reflections full_state with Some l => l | None => [] end;
                   complete_evaluation := evaluation full_state |} |}
      self.

(** The key function of the sort, [lambda x: x["timestamp"]] *)
Definition timestamp_key (session : Session) : outcome string :=
  match s_timestamp session with
  | Some t => Ret t
  | None => Raise KeyError
  end.

Fixpoint decorate (sessions : list Session) : outcome (list (string * Session)) :=
  match sessions with
  | [] => Ret []
  | session :: rest =>
      key <- timestamp_key session ;;
      rest' <- decorate rest ;;
      Ret ((key, session) :: rest')
  end.

(** [list.sort(key=..., reverse=True)] is stable: of two elements with equal
    keys the one that came first stays first.  [x] is the earlier element. *)
Fixpoint insert_desc (x : string * Session) (sorted : list (string * Session))
  : list (string * Session) :=
  match sorted with
  | [] => [x]
  | y :: rest =>
      if (fst x <? fst y)%string then y :: insert_desc x rest
      else x :: y :: rest
  end.

Fixpoint sort_desc (l : list (string * Session)) : list (string * Session) :=
  match l with
  | [] => []
  | x :: rest => insert_desc x (sort_desc rest)
  end.

(** [l[:limit]]: a negative limit counts from the end. *)
Definition slice_to {A : Type} (limit : Z) (l : list A) : list A :=
  if (limit <? 0)%Z then firstn (Z.to_nat (Z.of_nat (List.length l) + limit)) l
  else firstn (Z.to_nat limit) l.

Definition get_session_history (limit : Z) (self : MemoryManager)
  : outcome (list Session) :=
  let all_sessions := read_sessions self in
  keyed <- decorate all_sessions ;;
  Ret (slice_to limit (map snd (sort_desc keyed))).

(** ** The router's decision order, in the words of the specification *)

(** The first rule whose condition holds gives the answer. *)
Fixpoint first_match {A : Type} (rules : list (bool * A)) (otherwise : A) : A :=
  match rules with
  | [] => otherwise
  | (true, a) :: _ => a
  | (false, _) :: rules' => first_match rules' otherwise
  end.

Definition count_of (st : QAState) : Z :=
  match iteration_count st with Some n => n | None => 0%Z end.

Definition bound_of (st : QAState) : Z :=
  match max_iterations st with Some n => n | None => 3%Z end.

(** The evaluation record the rules read; a state without one has no field
    set. *)
Definition record_of (st : QAState) : pydict :=
  match evaluation st with Some (Some ev) => ev | _ => [] end.

(** [evaluation.<field>] is true *)
Definition field_true (st : QAState) (k : string) : bool :=
  truthy (get_default (record_of st) k (PBool false)).

(** [evaluation.score >= n] *)
Definition score_at_least (st : QAState) (n : Z) : bool :=
  match as_int (get_default (record_of st) "score" (PInt 0)) with
  | Some z => (n <=? z)%Z
  | None => false
  end.

(** [search_results is unset], read as: the key is missing or holds [None] *)
Definition is_unset (s : option (option string)) : bool :=
  match s with Some (Some _) => false | _ => true end.

(** ... read as: missing, [None] or the empty string *)
Definition is_unset_or_empty (s : option (option string)) : bool :=
  match s with Some (Some s) => s =? "" | _ => true end.

Definition route_by_order (unset : option (option string) -> bool) (st : QAState) : route :=
  first_match
    [ ((bound_of st <=? count_of st)%Z, finalize);
      (field_true st "is_acceptable" && score_at_least st 7, finalize);
      (field_true st "needs_search" && unset (search_results st), search) ]
    reflect.

(** The states on which the router's comparisons and lookups are defined
    once the iteration bound has not decided: the evaluation is a record (or
    missing), and its score is a number whenever [is_acceptable] makes the
    router look at it. *)
Definition router_defined (st : QAState) : bool :=
  match evaluation st with
  | Some None => false
  | _ =>
      negb (field_true st "is_acceptable")
      || match as_int (get_default (record_of st) "score" (PInt 0)) with
         | Some _ => true
         | None => false
         end
  end.

(** The state the router sees when every missing field it reads is written
    out with its default. *)
Definition with_field_default (k : string) (default : pyval) (ev : pydict) : pydict :=
  if dict_has ev k then ev else ((k, default) :: ev).

Definition with_defaults (st : QAState) : QAState :=
  {| question := question st;
     draft_answer := draft_answer st;
     evaluation :=
       match evaluation st with
       | Some None => Some None
       | _ =>
           Some (Some
             (with_field_default "is_acceptable" (PBool false)
               (with_field_default "score" (PInt 0)
                 (with_field_default "needs_search" (PBool false) (record_of st)))))
       end;
     final_answer := final_answer st;
     reflections := reflections st;
     search_results := search_results st;
     iteration_count := Some (count_of st);
     max_iterations := Some (bound_of st) |}.

(** The evaluation is missing, or is a record with none of the three fields
    the router reads. *)
Definition lacks_router_fields (st : QAState) : bool :=
  match evaluation st with
  | None => true
  | Some None => false
  | Some (Some ev) =>
      negb (dict_has ev "is_acceptable") && negb (dict_has ev "score")
      && negb (dict_has ev "needs_search")
  end.

(** Concrete states used below. *)
Definition state_with (ev : option (option pydict)) (sr : option (option string))
    (count bound : option Z) : QAState :=
  {| question := Some "What is 2+2?"; draft_answer := Some (Some "4");
     evaluation := ev; final_answer := None; reflections := Some [];
     search_results := sr; iteration_count := count; max_iterations := bound |}.

Definition text_score_state : QAState :=
  state_with (Some (Some [("score", PStr "8"); ("is_acceptable", PBool true)]))
             None (Some 1%Z) (Some 3%Z).

Definition empty_search_state : QAState :=
  state_with (Some (Some [("score", PInt 4); ("is_acceptable", PBool false);
                          ("needs_search", PBool true)]))
             (Some (Some "")) (Some 1%Z) (Some 3%Z).

Definition sentinel_state : QAState :=
  state_with (Some (Some [("score", PInt 4); ("needs_search", PBool true)]))
             (Some (Some search_unavailable)) (Some 1%Z) (Some 3%Z).

Definition drafted_state : QAState :=
  state_with None None (Some 1%Z) (Some 3%Z).

(** A record only the key check accepts: the score is out of range, the
    verdict is a text, and the three lists are missing. *)
Definition odd_record_text : string :=
  dq "{'score': 42, 'is_acceptable': 'maybe'}".

Definition odd_record : pydict :=
  [("score", PInt 42); ("is_acceptable", PStr "maybe")].

(** ** The texts the two patterns match *)

(** [c] does not occur in [s] *)
Fixpoint lacks (c : ascii) (s : string) : bool :=
  match s with
  | "" => true
  | String a s' => negb (Ascii.eqb a c) && lacks c s'
  end.

Definition no_brace (s : string) : bool := lacks "{" s && lacks "}" s.

Fixpoint all_space (s : string) : bool :=
  match s with
  | "" => true
  | String c s' => is_space c && all_space s'
  end.

(** A fenced block of [text] around [g]: three backquotes, [json] or
    nothing, white space, [g] from a brace to a brace, white space, three
    backquotes. *)
Definition fenced_in (text g : string) : Prop :=
  exists pre tag ws1 body ws2 post,
    text = pre ++ fence ++ tag ++ ws1 ++ g ++ ws2 ++ fence ++ post
    /\ g = "{" ++ body ++ "}"
    /\ (tag = "" \/ tag = "json")
    /\ all_space ws1 = true /\ all_space ws2 = true.

(** What follows the opening brace of a balanced text with at most one
    level of nesting; the index tells whether a nested pair is open. *)
Inductive brace_run : bool -> string -> Prop :=
| run_end : brace_run false "}"
| run_char (inner : bool) (c : ascii) (s : string) :
    is_brace c = false -> brace_run inner s -> brace_run inner (String c s)
| run_open (s : string) :
    brace_run true s -> brace_run false (String "{" s)
| run_close (s : string) :
    brace_run false s -> brace_run true (String "}" s).

Definition brace_balanced (g : string) : Prop :=
  exists t, g = String "{" t /\ brace_run false t.







(** A well-formed record after text that has braces of its own. *)
Definition braces_then_record : string :=
  dq "Use {curly} braces. {'score': 8, 'is_acceptable': true}".

Definition good_record_body : string := dq "'score': 8, 'is_acceptable': true".

Definition good_record : pydict :=
  [("score", PInt 8); ("is_acceptable", PBool true)].

(** ** Counting the nodes of a trace *)

Definition node_eqb (a b : node) : bool :=
  match a, b with
  | node_generate_answer, node_generate_answer
  | node_search, node_search
  | node_evaluate, node_evaluate
  | node_reflect, node_reflect
  | node_finalize, node_finalize => true
  | _, _ => false
  end.

(** How many times [n] ran *)
Fixpoint times_run (n : node) (trace : list node) : nat :=
  match trace with
  | [] => 0
  | m :: trace' => (if node_eqb n m then 1 else 0) + times_run n trace'
  end.

(** The search collaborator failed, or found something. *)
Definition failed_or_found (reply : search_reply) : Prop :=
  reply <> SearchReturns [].

(** The state [run_qa_workflow] starts from. *)
Definition initial_state (q : string) (bound : Z) : QAState :=
  {| question := Some q; draft_answer := None; evaluation := None;
     final_answer := None; reflections := Some [];
     search_results := None;
     iteration_count := Some 0%Z; max_iterations := Some bound |}.

(** An evaluation that keeps asking for a search. *)
Definition needs_search_text : string :=
  dq "{'score': 4, 'is_acceptable': false, 'needs_search': true}".

(** A world whose model drafts on even calls and evaluates as above on odd
    ones, and whose search finds nothing. *)
Definition empty_search_world : World :=
  {| model := fun n =>
       ModelReturns (if Nat.even n then "A draft." else needs_search_text);
     searcher := fun _ => SearchReturns [] |}.

(** The same model with a search collaborator that is down. *)
Definition failing_search_world : World :=
  {| model := model empty_search_world;
     searcher := fun _ => SearchInvokeFails |}.

(** Where a run stands and what it may assume about the counter: a node
    entered from the router's [search] or [reflect] answer, and the entry
    node, find the count below the bound; the others find it at most the
    bound.  Past the first generate step the key is present. *)
Definition counter_in_bounds (c : config) : Prop :=
  match at_node c with
  | node_generate_answer | node_search | node_reflect =>
      (count_of (state_of c) < bound_of (state_of c))%Z
  | node_evaluate | node_finalize =>
      (count_of (state_of c) <= bound_of (state_of c))%Z
      /\ iteration_count (state_of c) <> None
  end.

(** The final state of a run, when it reached [END]. *)
Definition final_of (r : run_result) : QAState :=
  match fst r with
  | Finished final => final
  | _ => empty_state
  end.

(** Steps a run still needs at most, by the node it stands at and the
    iterations left. *)
Definition steps_left (c : config) : nat :=
  let left := Z.to_nat (bound_of (state_of c) - count_of (state_of c)) in
  match at_node c with
  | node_generate_answer => 3 * Nat.max left 1
  | node_evaluate => match left with O => 2 | _ => 2 + 3 * left end
  | node_search | node_reflect => 1 + 3 * Nat.max left 1
  | node_finalize => 1
  end.

(** A run of three iterations: the evaluation never accepts, the search is
    down. *)
Definition three_round_run : run_result :=
  invoke (H := python_json) 20 failing_search_world (initial_state "Why?" 3).

(** ** Using the session store *)

(** A sequence of [log_state] calls, each with its clock reading, node name
    and state; it stops at the first call that raises. *)
Fixpoint log_all (entries : list (string * string * QAState)) (self : MemoryManager)
  : outcome MemoryManager :=
  match entries with
  | [] => Ret self
  | (now_iso, node_name, state) :: rest =>
      self' <- log_state now_iso node_name state self ;;
      log_all rest self'
  end.

(** The session carries a timestamp that sorts strictly before [t]. *)
Definition earlier_than (t : string) (session : Session) : bool :=
  match s_timestamp session with
  | Some t' => (t' <? t)%string
  | None => false
  end.

(** [b] does not sort after [a] by timestamp. *)
Definition not_after (a b : Session) : Prop :=
  exists ta tb,
    s_timestamp a = Some ta /\ s_timestamp b = Some tb /\ (tb <=? ta)%string = true.

Definition plain_session (id iso q : string) : Session :=
  {| s_session_id := id; s_timestamp := Some iso; s_question := Some q;
     s_states := []; s_final_answer := Some None;
     s_metadata := mkMetadata (Some 0%Z) (Some false) (Some 0%nat);
     s_complete_state := None |}.

(** A store that holds a session stamped half past two, before the clock
    was set back an hour. *)
Definition store_before_clock_change : MemoryManager :=
  {| session_file :=
       Some [plain_session "20261025_023000" "2026-10-25T02:30:00.000001"
                           "What is the capital of France?"];
     current_session_id := None |}.

(** The round trip of a new session, created at ten past two on the same
    day, on a manager [self]. *)
Definition round_trip (self : MemoryManager) : outcome MemoryManager :=
  self' <- log_all [("2026-10-25T02:10:01.000001", "generate_answer",
                     draft_patch "4" 1)]
                   (snd (create_session "20261025_021000"
                           "2026-10-25T02:10:00.000001" "What is 2+2?" self)) ;;
  Ret (save_final_answer "Four." (final_patch "Four.") self').

Definition no_store : MemoryManager :=
  {| session_file := None; current_session_id := None |}.

(** [get_session_history(limit)] on the manager a sequence of calls left. *)
Definition history_after (limit : Z) (r : outcome MemoryManager) : outcome (list Session) :=
  self <- r ;; get_session_history limit self.

Definition manager_of (r : outcome MemoryManager) : MemoryManager :=
  match r with Ret self => self | Raise _ => no_store end.

(** What one run of [n] adds to the counter. *)
Definition generate_steps (n : node) : Z :=
  if node_eqb node_generate_answer n then 1%Z else 0%Z.

(** ** Invariants of the session store *)

(** Every key of a decorated list sorts strictly before [t]. *)
Definition keys_below (t : string) (l : list (string * Session)) : Prop :=
  Forall (fun p => (fst p <? t)%string = true) l.

(** Two neighbours of a list sorted latest first. *)
Definition key_order (a b : string * Session) : Prop :=
  (fst b <=? fst a)%string = true.

(** A decorated element carries its session's timestamp. *)
Definition keyed_by_timestamp (p : string * Session) : Prop :=
  s_timestamp (snd p) = Some (fst p).

(** The session has another id. *)
Definition other_id (id : string) (session : Session) : Prop :=
  (s_session_id session =? id) = false.

(** The file holds [l1 ++ s :: l2], [s] is the first session with the
    current id, and the id is not empty. *)
Definition store_is (id : string) (l1 : list Session) (s : Session) (l2 : list Session)
    (self : MemoryManager) : Prop :=
  session_file self = Some (l1 ++ s :: l2)%list
  /\ current_session_id self = Some id
  /\ id <> ""
  /\ s_session_id s = id
  /\ Forall (other_id id) l1.

(** ** The shape of a run *)

(** One round of the loop that does not end the run, and the last one. *)
Definition round (r : route) : list node :=
  [node_generate_answer; node_evaluate; node_of_route r].

Definition last_round : list node :=
  [node_generate_answer; node_evaluate; node_finalize].

Definition rounds (rs : list route) : list node := flat_map round rs.

Definition loops_back (r : route) : Prop := r <> finalize.

(** The traces that lead from a node to [END]. *)
Definition trace_from (n : node) (trace : list node) : Prop :=
  match n with
  | node_generate_answer =>
      exists rs, Forall loops_back rs /\ trace = (rounds rs ++ last_round)%list
  | node_evaluate =>
      trace = [node_evaluate; node_finalize]
      \/ exists r rs,
           loops_back r /\ Forall loops_back rs
           /\ trace = (node_evaluate :: node_of_route r :: rounds rs ++ last_round)%list
  | node_search | node_reflect =>
      exists rs, Forall loops_back rs /\ trace = (n :: rounds rs ++ last_round)%list
  | node_finalize => trace = [node_finalize]
  end.

(** [state.get("reflections", [])] *)
Definition reflections_of (st : QAState) : list string :=
  match reflections st with Some l => l | None => [] end.

(** The evaluation is a record with the two keys the evaluate step asks
    for. *)
Definition has_both_keys (st : QAState) : Prop :=
  exists d,
    evaluation st = Some (Some d)
    /\ dict_has d "score" = true /\ dict_has d "is_acceptable" = true.

(** The second rule of the router holds. *)
Definition accepted (st : QAState) : bool :=
  field_true st "is_acceptable" && score_at_least st 7.

(** A reply the parser gets nothing out of. *)
Definition unreadable `{JsonLib} (reply : llm_reply) : Prop :=
  exists text,
    reply = ModelReturns text /\ truthy (extract_json_from_text text) = false.

(** What a run may assume while every reply is unreadable: the question is
    there, a draft is there once one was generated, the evaluation a reflect
    step reads is a fallback record, and the search node is never entered. *)
Definition fallback_only (c : config) : Prop :=
  question (state_of c) <> None
  /\ match at_node c with
     | node_generate_answer => True
     | node_evaluate | node_finalize =>
         exists draft, draft_answer (state_of c) = Some (Some draft)
     | node_reflect =>
         exists iteration len,
           evaluation (state_of c) = Some (Some (fallback_evaluation iteration len))
     | node_search => False
     end.

(** The model calls a node makes. *)
Definition calls_model (n : node) : nat :=
  match n with
  | node_generate_answer | node_evaluate | node_finalize => 1
  | node_search | node_reflect => 0
  end.

Fixpoint model_calls_in (trace : list node) : nat :=
  match trace with
  | [] => 0
  | n :: trace' => calls_model n + model_calls_in trace'
  end.

(** A world whose model never answers in JSON. *)
Definition plain_text_world : World :=
  {| model := fun _ => ModelReturns "It looks fine to me.";
     searcher := fun _ => SearchInvokeFails |}.

(** A world whose evaluations accept at once. *)
Definition accepting_text : string := dq "{'score': 9, 'is_acceptable': true}".

Definition accepting_world : World :=
  {| model := fun n =>
       ModelReturns (if Nat.even n then "A draft." else accepting_text);
     searcher := fun _ => SearchInvokeFails |}.

(** The entry [log_state] appends, and the metadata it writes. *)
Definition logged_entry (now_iso node_name : string) (state : QAState) : StateEntry :=
  {| entry_timestamp := now_iso;
     entry_node := node_name;
     entry_iteration := count_of state;
     state_snapshot :=
       {| has_draft := truthy_str (draft_answer state);
          has_evaluation := truthy (PDict (record_of state));
          has_search := truthy_str (search_results state);
          reflection_count := List.length (reflections_of state);
          evaluation_score := get_default (record_of state) "score" PNone |} |}.

Definition logged_metadata (state : QAState) : Metadata :=
  mkMetadata (Some (count_of state)) (Some (truthy_str (search_results state)))
             (Some (List.length (reflections_of state))).

Definition entry_of (e : string * string * QAState) : StateEntry :=
  logged_entry (fst (fst e)) (snd (fst e)) (snd e).

(** A manager whose current session is not in the file (the file was
    removed after [create_session]). *)
Definition orphaned_manager : MemoryManager :=
  {| session_file := None; current_session_id := Some "20261025_021000" |}.

(** The array [_save_session] writes back. *)
Definition saved_sessions (l : list Session) (sd : Session) : list Session :=
  match replace_session l sd with
  | Some updated => updated
  | None => (l ++ [sd])%list
  end.

(** The create and log part of [round_trip]. *)
Definition round_trip_logs (self : MemoryManager) : outcome MemoryManager :=
  log_all [("2026-10-25T02:10:01.000001", "generate_answer", draft_patch "4" 1)]
          (snd (create_session "20261025_021000"
                  "2026-10-25T02:10:00.000001" "What is 2+2?" self)).

(** ** The driver of [2main.py] *)

(** The names the nodes are added to the graph under. *)
Definition node_name (n : node) : string :=
  match n with
  | node_generate_answer => "generate_answer"
  | node_search => "search"
  | node_evaluate => "evaluate"
  | node_reflect => "reflect"
  | node_finalize => "finalize"
  end.

(** What the node of a configuration returns. *)
Definition run_node `{JsonLib} (w : World) (c : config) : outcome QAState :=
  match at_node c with
  | node_generate_answer =>
      generate_answer_node (model w (model_calls c)) (state_of c)
  | node_search => search_tool_node (searcher w (search_calls c)) (state_of c)
  | node_evaluate => evaluate_answer_node (model w (model_calls c)) (state_of c)
  | node_reflect => reflection_node (state_of c)
  | node_finalize => finalize_answer_node (model w (model_calls c)) (state_of c)
  end.

Inductive stream_end : Type :=
| StreamDone
| StreamRaised (e : exn)
| StreamCutOff.

(** [workflow.stream(initial_state)]: a compiled state graph streams
    updates, one chunk [{node name: patch}] after each node that ran, the
    patch being what the node returned and not the merged state.  A node or
    router that raises, or the recursion limit, ends the stream with an
    exception after the chunks of the steps before. *)
Fixpoint stream `{JsonLib} (fuel : nat) (w : World) (c : config)
  : list (node * QAState) * stream_end :=
  match fuel with
  | O => ([], StreamCutOff)
  | S fuel' =>
      match run_node w c, step w c with
      | Ret patch, Next c' =>
          let (chunks, e) := stream fuel' w c' in ((at_node c, patch) :: chunks, e)
      | Ret patch, End _ => ([(at_node c, patch)], StreamDone)
      | Ret _, Abort e => ([], StreamRaised e)
      | Raise e, _ => ([], StreamRaised e)
      end
  end.

(** The readings of the clock during one call of [run_qa_workflow]: the two
    of [create_session] and the one of the [k]-th [log_state]. *)
Record Clock : Type := mkClock {
  clock_id : string;
  clock_iso : string;
  clock_log : nat -> string
}.

(** The loop over the stream: each chunk is logged and becomes [result];
    [None] when [log_state] raises. *)
Fixpoint log_chunks (clock : Clock) (k : nat) (chunks : list (node * QAState))
    (result : option QAState) (memory : MemoryManager)
  : option (option QAState) * MemoryManager :=
  match chunks with
  | [] => (Some result, memory)
  | (n, node_state) :: rest =>
      match log_state (clock_log clock k) (node_name n) node_state memory with
      | Ret memory' => log_chunks clock (S k) rest (Some node_state) memory'
      | Raise _ => (None, memory)
      end
  end.

Inductive summary_error : Type :=
| SummaryKeyError     (* a key the summary subscripts is missing *)
| SummaryIndexError.  (* a state's timestamp has no T to split at *)

(** [print_session_summary()]: what it raises, if anything.  It prints the
    question, the timestamp, the three metadata and, for each state, the
    part of its timestamp after the T. *)
Definition print_session_summary (self : MemoryManager) : option summary_error :=
  if no_current_session self then None
  else
    let session_data := _load_session (current_id self) self in
    match s_question session_data, s_timestamp session_data with
    | None, _ | _, None => Some SummaryKeyError
    | Some _, Some _ =>
        match s_metadata session_data with
        | {| total_iterations := Some _; search_used := Some _;
             meta_reflection_count := Some _ |} =>
            if forallb (fun e => str_contains "T" (entry_timestamp e))
                       (s_states session_data)
            then None
            else Some SummaryIndexError
        | _ => Some SummaryKeyError
        end
    end.

(** What [run_qa_workflow] leaves: the value it returns ([None] when
    anything raised), the manager with its file, and the session
    [export_session()] wrote to a file of its own. *)
Record RunReport : Type := mkReport {
  returned : option QAState;
  memory_after : MemoryManager;
  exported : option Session
}.

Definition run_qa_workflow `{JsonLib} (clock : Clock) (fuel : nat) (w : World)
    (question : string) (max_iterations : Z) (file : option (list Session))
  : RunReport :=
  let memory := {| session_file := file; current_session_id := None |} in
  let memory := snd (create_session (clock_id clock) (clock_iso clock) question memory) in
  let (chunks, ending) :=
    stream fuel w {| at_node := node_generate_answer;
                     state_of := initial_state question max_iterations;
                     model_calls := 0; search_calls := 0 |} in
  match log_chunks clock 0 chunks None memory with
  | (None, memory) => mkReport None memory None
  | (Some result, memory) =>
      match ending with
      | StreamDone =>
          let memory :=
            match result with
            | Some patch =>
                match final_answer patch with
                | Some (Some answer) =>
                    if negb (answer =? "") then save_final_answer answer patch memory
                    else memory
                | _ => memory
                end
            | None => memory
            end in
          match print_session_summary memory with
          | Some _ => mkReport None memory None
          | None =>
              mkReport result memory
                       (Some (_load_session (current_id memory) memory))
          end
      | _ => mkReport None memory None
      end
  end.

(** The entries the loop logs, from the [k]-th clock reading on. *)
Fixpoint chunk_entries (clock : Clock) (k : nat) (chunks : list (node * QAState))
  : list StateEntry :=
  match chunks with
  | [] => []
  | (n, node_state) :: rest =>
      logged_entry (clock_log clock k) (node_name n) node_state
        :: chunk_entries clock (S k) rest
  end.

(** A clock that reads like [datetime.now()]. *)
Definition sample_clock : Clock :=
  {| clock_id := "20261025_021000";
     clock_iso := "2026-10-25T02:10:00.000001";
     clock_log := fun k =>
       "2026-10-25T02:10:0" ++ str_of_Z (Z.of_nat (k mod 10)) ++ ".500000" |}.


(** A chunk [log_state] can log: its evaluation, if any, is a record. *)
Definition loggable (chunk : node * QAState) : Prop :=
  evaluation (snd chunk) <> Some None.

(** ** The patterns and the decoder on sample texts

    The values are those Python's [re] and [json] modules give. *)

Example search_fenced_nested :
  search_fenced (dq "x ```json" ++ newline ++ dq "{'a': {'b': 1}}" ++ newline ++ "``` y")
  = Some (dq "{'a': {'b': 1}}").
Proof. reflexivity. Qed.

Example search_fenced_untagged :
  search_fenced "```{a}``` ```json {b} ```" = Some "{a}".
Proof. reflexivity. Qed.

Example search_fenced_lazy :
  search_fenced "```json {a} `` {b} ```" = Some "{a} `` {b}".
Proof. reflexivity. Qed.

Example search_fenced_tag_after_space :
  search_fenced "``` json {a} ```" = None.
Proof. reflexivity. Qed.

Example search_braces_two_levels :
  search_braces "x {a {b} c {d} } y" = Some "{a {b} c {d} }".
Proof. reflexivity. Qed.

Example search_braces_three_levels :
  search_braces "{{{a}}}" = Some "{{a}}"
  /\ search_braces "{a {b {c}}} {d}" = Some "{b {c}}".
Proof. split; reflexivity. Qed.

Example search_braces_unbalanced :
  search_braces "{a" = None /\ search_braces "} {}" = Some "{}".
Proof. split; reflexivity. Qed.

Example loads_object :
  Json.loads (dq "{'a': 1, 'a': 2, 'b': [true, null, 'x\ny']}")
  = Some (PDict [("a", PInt 2);
                 ("b", PList [PBool true; PNone; PStr ("x" ++ newline ++ "y")])]).
Proof. reflexivity. Qed.

Example loads_number : Json.loads " 5 " = Some (PInt 5).
Proof. reflexivity. Qed.

Example loads_rejects :
  Json.loads "[1, 2,]" = None /\ Json.loads "01" = None
  /\ Json.loads "nul" = None /\ Json.loads "{}x" = None
  /\ Json.loads "{oops}" = None.
Proof. repeat split. Qed.

(** ** Results on the router *)

Lemma dict_get_with_field_default_same (k : string) (v : pyval) (ev : pydict) :
  get_default (with_field_default k v ev) k v = get_default ev k v.
Proof.
  unfold with_field_default, dict_has, get_default.
  destruct (dict_get ev k) eqn:E; [now rewrite E|].
  cbn. now rewrite String.eqb_refl.
Qed.

Lemma dict_get_with_field_default_other (k k' : string) (v : pyval) (ev : pydict) :
  k <> k' -> dict_get (with_field_default k v ev) k' = dict_get ev k'.
Proof.
  intros Hne. unfold with_field_default.
  destruct (dict_has ev k); [reflexivity|].
  cbn. apply String.eqb_neq in Hne. now rewrite Hne.
Qed.

Lemma get_default_missing (k : string) (v : pyval) (ev : pydict) :
  dict_has ev k = false -> get_default ev k v = v.
Proof.
  unfold dict_has, get_default. now destruct (dict_get ev k).
Qed.

(** The iteration bound decides before anything else is read. *)
Lemma should_continue_at_bound (st : QAState) :
  (bound_of st <= count_of st)%Z -> should_continue st = Ret finalize.
Proof.
  intros Hle. apply Z.leb_le in Hle.
  unfold should_continue, count_of, bound_of in *. now rewrite Hle.
Qed.

(** C1, amended.  Whenever [iteration_count >= max_iterations] the router
    answers [finalize], whatever the other fields hold.  On every state whose
    evaluation is a record (or missing) and whose score is a number whenever
    [is_acceptable] is true, it answers by the decision order, first match
    winning: the bound, then [is_acceptable] and [score >= 7], then
    [needs_search] and [search_results] unset or empty, then [reflect]. *)
Theorem should_continue_decision_order (st : QAState) :
  ((bound_of st <= count_of st)%Z -> should_continue st = Ret finalize)
  /\ (router_defined st = true ->
      should_continue st = Ret (route_by_order is_unset_or_empty st)).
Proof.
  split; [apply should_continue_at_bound|].
  unfold should_continue, route_by_order, router_defined, field_true,
    score_at_least, record_of, count_of, bound_of.
  destruct st as [q d ev f r sr ic mx]; cbn [evaluation iteration_count
    max_iterations search_results first_match].
  intros Hdef. destruct (_ <=? _)%Z; [reflexivity|].
  destruct ev as [[ev|]|]; try discriminate Hdef; [|reflexivity].
  destruct (truthy (get_default ev "is_acceptable" (PBool false))); cbn in *.
  - unfold py_ge_int.
    destruct (as_int (get_default ev "score" (PInt 0))); [|discriminate].
    cbn. destruct (7 <=? z)%Z; [reflexivity|].
    destruct (truthy (get_default ev "needs_search" (PBool false))); cbn;
      [|reflexivity].
    destruct sr as [[s|]|]; cbn; try reflexivity.
    now destruct (s =? "").
  - destruct (truthy (get_default ev "needs_search" (PBool false))); cbn;
      [|reflexivity].
    destruct sr as [[s|]|]; cbn; try reflexivity.
    now destruct (s =? "").
Qed.

(** Below the bound the router raises on the other states. *)
Lemma should_continue_raises (st : QAState) :
  router_defined st = false -> (count_of st < bound_of st)%Z ->
  exists e, should_continue st = Raise e.
Proof.
  unfold should_continue, router_defined, field_true, record_of, count_of, bound_of.
  intros Hdef Hlt. apply Z.leb_gt in Hlt. rewrite Hlt.
  destruct (evaluation st) as [[ev|]|]; cbn in Hdef.
  - destruct (truthy (get_default ev "is_acceptable" (PBool false)));
      [|discriminate].
    cbn in Hdef. unfold py_ge_int.
    destruct (as_int (get_default ev "score" (PInt 0))); [discriminate|].
    now exists TypeError.
  - now exists AttributeError.
  - discriminate.
Qed.

(** The amended C1 at a state whose record is scored 4 and asks for a
    search while [search_results] holds the failure sentinel. *)
Lemma should_continue_decision_order_witness :
  router_defined sentinel_state = true
  /\ should_continue sentinel_state = Ret reflect.
Proof.
  split; [reflexivity|].
  destruct (should_continue_decision_order sentinel_state) as [_ Horder].
  rewrite Horder; reflexivity.
Defined.

(** C1 as stated fails twice.  The router is not total: the evaluate step
    stores a record whose score is the text "8", and the comparison with 7
    raises.  And an empty [search_results] counts as unset: the router sends
    the run to [search] where the stated order, with [search_results] set,
    gives [reflect]. *)
Lemma should_continue_as_stated_fails :
  should_continue text_score_state = Raise TypeError
  /\ should_continue empty_search_state = Ret search
  /\ route_by_order is_unset empty_search_state = reflect.
Proof. repeat split. Qed.

Lemma get_default_with_field_default_other (k k' : string) (v d : pyval) (ev : pydict) :
  k <> k' -> get_default (with_field_default k v ev) k' d = get_default ev k' d.
Proof.
  intros Hne. unfold get_default.
  now rewrite dict_get_with_field_default_other.
Qed.

Lemma router_fields_with_defaults (ev : pydict) :
  let ev' :=
    with_field_default "is_acceptable" (PBool false)
      (with_field_default "score" (PInt 0)
        (with_field_default "needs_search" (PBool false) ev)) in
  get_default ev' "is_acceptable" (PBool false) = get_default ev "is_acceptable" (PBool false)
  /\ get_default ev' "score" (PInt 0) = get_default ev "score" (PInt 0)
  /\ get_default ev' "needs_search" (PBool false) = get_default ev "needs_search" (PBool false).
Proof.
  cbv zeta. repeat split.
  - rewrite dict_get_with_field_default_same.
    rewrite !get_default_with_field_default_other by discriminate. reflexivity.
  - rewrite get_default_with_field_default_other by discriminate.
    rewrite dict_get_with_field_default_same.
    rewrite get_default_with_field_default_other by discriminate. reflexivity.
  - rewrite !get_default_with_field_default_other by discriminate.
    apply dict_get_with_field_default_same.
Qed.

(** C9.  The router reads a missing [is_acceptable] as false, a missing
    [score] as 0, a missing [needs_search] as false, a missing evaluation as
    a record without fields, a missing [max_iterations] as 3 (and a missing
    [iteration_count] as 0): its answer is its answer on the state with
    these defaults written out.  So a state whose evaluation is missing or
    has none of the three fields is sent to [reflect] while the count is
    below the bound; the router does not raise on it. *)
Theorem should_continue_defaults (st : QAState) :
  should_continue st = should_continue (with_defaults st)
  /\ (lacks_router_fields st = true ->
      (count_of st < bound_of st)%Z ->
      should_continue st = Ret reflect)
  /\ (lacks_router_fields st = true ->
      (bound_of st <= count_of st)%Z ->
      should_continue st = Ret finalize).
Proof.
  split; [|split].
  - unfold should_continue, with_defaults, count_of, bound_of, record_of.
    destruct st as [q d ev f r sr ic mx]; cbn [evaluation iteration_count
      max_iterations search_results].
    destruct (_ <=? _)%Z; [reflexivity|].
    destruct ev as [[ev|]|]; try reflexivity.
    destruct (router_fields_with_defaults ev) as (Ha & Hs & Hn).
    cbv zeta in Ha, Hs, Hn. now rewrite Ha, Hs, Hn.
  - intros Hlack Hlt. apply Z.leb_gt in Hlt.
    unfold should_continue, lacks_router_fields, count_of, bound_of in *.
    rewrite Hlt. destruct (evaluation st) as [[ev|]|]; try discriminate.
    + apply andb_prop in Hlack as [Hlack Hn]. apply andb_prop in Hlack as [Ha Hs].
      apply negb_true_iff in Ha, Hs, Hn.
      rewrite (get_default_missing _ _ _ Ha), (get_default_missing _ _ _ Hn).
      reflexivity.
    + reflexivity.
  - intros _ Hle. now apply should_continue_at_bound.
Qed.

(** C9 at a state that holds nothing but the question. *)
Lemma should_continue_defaults_witness :
  lacks_router_fields (state_with None None None None) = true
  /\ should_continue (state_with None None None None) = Ret reflect.
Proof.
  split; [reflexivity|].
  apply (should_continue_defaults (state_with None None None None));
    [reflexivity | reflexivity].
Defined.

(** ** Results on the evaluate step *)

Section EvaluateResults.

Context `{JsonLib}.

Lemma dict_has_nonempty (d : pydict) (k : string) :
  dict_has d k = true -> truthy (PDict d) = true.
Proof. destruct d; [discriminate | reflexivity]. Qed.

(** C10.  A parsed record that has the keys [score] and [is_acceptable] is
    stored as the state's evaluation as it is: no value of it is looked at,
    so a score outside 1..10, a verdict that is not a boolean and missing or
    long lists all go through. *)
Theorem evaluate_stores_record_unchanged
    (content : string) (state : QAState) (d : pydict) :
  question state <> None ->
  draft_answer state <> None ->
  extract_json_from_text content = PDict d ->
  dict_has d "score" = true ->
  dict_has d "is_acceptable" = true ->
  evaluate_answer_node (ModelReturns content) state = Ret (evaluation_patch d)
  /\ evaluation (merge state (evaluation_patch d)) = Some (Some d).
Proof.
  intros Hq Hd Hparse Hs Ha. split; [|reflexivity].
  unfold evaluate_answer_node.
  destruct (question state); [|contradiction].
  destruct (draft_answer state); [|contradiction].
  rewrite Hparse, (dict_has_nonempty _ _ Hs).
  unfold has_required_keys, py_contains. cbn [bind].
  now rewrite Hs, Ha.
Qed.

(** What the [else] branch of the evaluate step returns: the parser gave
    nothing, an empty value, or a container without one of the two keys. *)
Lemma evaluate_falls_back (content : string) (state : QAState) (draft : string) :
  question state <> None ->
  draft_answer state = Some (Some draft) ->
  truthy (extract_json_from_text content) = false
  \/ has_required_keys (extract_json_from_text content) = Ret false ->
  evaluate_answer_node (ModelReturns content) state
  = Ret (evaluation_patch
           (fallback_evaluation
              (match iteration_count state with Some n => n | None => 1%Z end)
              (String.length draft))).
Proof.
  intros Hq Hd Hcase. unfold evaluate_answer_node.
  destruct (question state); [|contradiction]. rewrite Hd.
  destruct (truthy (extract_json_from_text content)) eqn:Ht.
  - destruct Hcase as [Hf|Hk]; [discriminate|]. now rewrite Hk.
  - reflexivity.
Qed.

(** The fallback record, field by field. *)
Lemma fallback_evaluation_fields (iteration : Z) (draft_len : nat) :
  let score := Z.min 10 (Z.max 5 (Z.of_nat draft_len / 200)) in
  let ev := fallback_evaluation iteration draft_len in
  (5 <= score <= 10)%Z
  /\ dict_get ev "score" = Some (PInt score)
  /\ dict_get ev "is_acceptable"
     = Some (PBool ((2 <=? iteration)%Z || (7 <=? score)%Z))
  /\ dict_get ev "strengths" = Some (PList [PStr "Answer provided"])
  /\ dict_get ev "needs_search" = Some (PBool false)
  /\ ((7 <= score)%Z ->
      dict_get ev "weaknesses" = Some (PList [])
      /\ dict_get ev "suggestions" = Some (PList []))
  /\ ((score < 7)%Z ->
      dict_get ev "weaknesses" = Some (PList [PStr "Could be more detailed"])
      /\ dict_get ev "suggestions" = Some (PList [PStr "Add more examples"])).
Proof.
  cbv zeta. split; [lia|]. do 4 (split; [reflexivity|]). split.
  - intros Hs. apply Z.leb_le in Hs. cbn. now rewrite Hs.
  - intros Hs. apply Z.leb_gt in Hs. cbn. now rewrite Hs.
Qed.

End EvaluateResults.

(** C10 on the reference decoder: the odd record is stored as it is. *)
Lemma evaluate_stores_record_unchanged_witness :
  evaluate_answer_node (H := python_json) (ModelReturns odd_record_text) drafted_state
  = Ret (evaluation_patch odd_record).
Proof.
  apply (evaluate_stores_record_unchanged (H := python_json)
           odd_record_text drafted_state odd_record);
    solve [discriminate | reflexivity].
Defined.

(** C2: the fallback is not reached when the model answers with a JSON
    number.  The text 5 parses to the integer 5, which is true, and the key
    test [k in 5] raises: the step fails instead of falling back. *)
Theorem evaluate_raises_on_number :
  extract_json_from_text (H := python_json) "5" = PInt 5
  /\ evaluate_answer_node (H := python_json) (ModelReturns "5") drafted_state
     = Raise TypeError.
Proof. split; reflexivity. Qed.

(** ** Results on the two patterns *)

Lemma append_assoc (s1 s2 s3 : string) : (s1 ++ s2) ++ s3 = s1 ++ s2 ++ s3.
Proof. induction s1 as [|c s1 IH]; cbn; [reflexivity | now rewrite IH]. Qed.

Lemma append_empty_r (s : string) : s ++ "" = s.
Proof. induction s as [|c s IH]; cbn; [reflexivity | now rewrite IH]. Qed.

Lemma strip_prefix_sound (p s r : string) :
  strip_prefix p s = Some r -> s = p ++ r.
Proof.
  revert s. induction p as [|a p IH]; intros s Hs; cbn in *.
  - now inversion Hs.
  - destruct s as [|b s]; [discriminate|].
    destruct (Ascii.eqb a b) eqn:E; [|discriminate].
    apply Ascii.eqb_eq in E. subst b. now rewrite (IH _ Hs).
Qed.

Lemma strip_prefix_complete (p r : string) : strip_prefix p (p ++ r) = Some r.
Proof.
  induction p as [|a p IH]; cbn; [reflexivity|].
  now rewrite Ascii.eqb_refl.
Qed.

Lemma skip_space_split (s : string) :
  exists ws, s = ws ++ skip_space s /\ all_space ws = true.
Proof.
  induction s as [|c s [ws [Hs Hws]]]; cbn.
  - now exists "".
  - destruct (is_space c) eqn:E.
    + exists (String c ws). cbn. rewrite E, Hws. split; [now rewrite <- Hs | reflexivity].
    + now exists "".
Qed.

Lemma closes_fence_split (s : string) :
  closes_fence s = true ->
  exists ws post, s = ws ++ fence ++ post /\ all_space ws = true.
Proof.
  unfold closes_fence. intros Hc.
  destruct (strip_prefix fence (skip_space s)) as [post|] eqn:E; [|discriminate].
  destruct (skip_space_split s) as [ws [Hs Hws]].
  exists ws, post. split; [|assumption].
  rewrite Hs at 1. now rewrite (strip_prefix_sound _ _ _ E).
Qed.

Lemma fence_body_shape (s b : string) :
  fence_body s = Some b ->
  exists body ws post,
    b = body ++ "}" /\ s = b ++ ws ++ fence ++ post /\ all_space ws = true.
Proof.
  revert b. induction s as [|c s IH]; intros b Hb; cbn -[fence] in Hb; [discriminate|].
  destruct (Ascii.eqb c "}" && closes_fence s) eqn:E.
  - apply andb_prop in E as [Ec Hc]. apply Ascii.eqb_eq in Ec. subst c.
    inversion Hb; subst b. destruct (closes_fence_split _ Hc) as [ws [post [Hs Hws]]].
    exists "", ws, post. cbn -[fence]. now rewrite <- Hs.
  - destruct (fence_body s) as [b'|]; [|discriminate]. inversion Hb; subst b.
    destruct (IH b' eq_refl) as [body [ws [post [Hb' [Hs Hws]]]]].
    exists (String c body), ws, post. cbn -[fence]. now rewrite <- Hb', <- Hs.
Qed.

Lemma fence_open_shape (s g : string) :
  fence_open s = Some g ->
  exists ws1 body ws2 post,
    s = ws1 ++ g ++ ws2 ++ fence ++ post /\ g = "{" ++ body ++ "}"
    /\ all_space ws1 = true /\ all_space ws2 = true.
Proof.
  unfold fence_open. intros Hg.
  destruct (skip_space_split s) as [ws1 [Hs Hws1]].
  destruct (skip_space s) as [|c s']; [discriminate|].
  destruct (Ascii.eqb c "{") eqn:Ec; [|discriminate].
  apply Ascii.eqb_eq in Ec. subst c.
  destruct (fence_body s') as [b|] eqn:Eb; [|discriminate].
  inversion Hg; subst g.
  destruct (fence_body_shape _ _ Eb) as [body [ws2 [post [Hb [Hs' Hws2]]]]].
  exists ws1, body, ws2, post. repeat split; try assumption.
  - rewrite Hs. f_equal. cbn -[fence]. now rewrite <- Hs'.
  - cbn -[fence]. now rewrite Hb.
Qed.

Lemma fence_at_shape (s g : string) :
  fence_at s = Some g -> fenced_in s g.
Proof.
  unfold fence_at, fenced_in. intros Hg.
  destruct (strip_prefix fence s) as [s1|] eqn:E1; [|discriminate].
  apply strip_prefix_sound in E1.
  assert (Hcases :
    (exists s2, strip_prefix "json" s1 = Some s2 /\ fence_open s2 = Some g)
    \/ fence_open s1 = Some g).
  { destruct (strip_prefix "json" s1) as [s2|] eqn:E2; [|now right].
    destruct (fence_open s2) as [g'|] eqn:E3; [|now right].
    left. exists s2. split; [reflexivity|]. now rewrite E3. }
  destruct Hcases as [[s2 [E2 Ho]]|Ho].
  - apply strip_prefix_sound in E2.
    destruct (fence_open_shape _ _ Ho) as [ws1 [body [ws2 [post [Hs [Hg' [H1 H2]]]]]]].
    exists "", "json", ws1, body, ws2, post.
    repeat split; try assumption; [|now right].
    now rewrite E1, E2, Hs.
  - destruct (fence_open_shape _ _ Ho) as [ws1 [body [ws2 [post [Hs [Hg' [H1 H2]]]]]]].
    exists "", "", ws1, body, ws2, post.
    repeat split; try assumption; [|now left].
    now rewrite E1, Hs.
Qed.

Lemma search_fenced_shape (text g : string) :
  search_fenced text = Some g -> fenced_in text g.
Proof.
  induction text as [|c text IH]; intros Hg.
  - apply fence_at_shape. cbn -[fence] in Hg. now destruct (fence_at "").
  - cbn [search_fenced] in Hg.
    destruct (fence_at (String c text)) as [g'|] eqn:E.
    + inversion Hg; subst g'. now apply fence_at_shape.
    + destruct (IH Hg) as [pre [tag [ws1 [body [ws2 [post [Ht Hrest]]]]]]].
      exists (String c pre), tag, ws1, body, ws2, post.
      split; [cbn -[fence]; now rewrite <- Ht | assumption].
Qed.


Lemma braces_body_complete (inner : bool) (b post : string) :
  brace_run inner b -> braces_body inner (b ++ post) = Some b.
Proof.
  induction 1 as [|inner c s Hc Hr IH|s Hr IH|s Hr IH]; cbn.
  - reflexivity.
  - unfold is_brace in Hc. apply orb_false_elim in Hc as [Ho Hc].
    now rewrite Hc, Ho, IH.
  - now rewrite IH.
  - now rewrite IH.
Qed.


Lemma braces_at_complete (g post : string) :
  brace_balanced g -> braces_at (g ++ post) = Some g.
Proof.
  intros [t [Hg Hr]]. subst g. cbn.
  now rewrite (braces_body_complete _ _ post Hr).
Qed.


Lemma lacks_app (c : ascii) (s1 s2 : string) :
  lacks c (s1 ++ s2) = lacks c s1 && lacks c s2.
Proof.
  induction s1 as [|a s1 IH]; cbn; [reflexivity|].
  now rewrite IH, andb_assoc.
Qed.

(** A character that occurs once cuts a text in one way only. *)
Lemma lacks_split_unique (c : ascii) (p X A Y : string) :
  lacks c p = true -> lacks c X = true ->
  p ++ String c X = A ++ String c Y -> A = p /\ Y = X.
Proof.
  revert A. induction p as [|a p IH]; intros A Hp HX Heq.
  - destruct A as [|b A]; cbn in Heq.
    + inversion Heq. now split.
    + inversion Heq; subst. rewrite lacks_app in HX. cbn in HX.
      rewrite Ascii.eqb_refl in HX. cbn in HX.
      now rewrite andb_false_r in HX.
  - cbn in Hp. apply andb_prop in Hp as [Ha Hp].
    destruct A as [|b A]; cbn in Heq.
    + inversion Heq; subst. now rewrite Ascii.eqb_refl in Ha.
    + inversion Heq; subst. destruct (IH A Hp HX H1) as [-> ->]. now split.
Qed.

Lemma no_brace_run (body : string) :
  no_brace body = true -> brace_run false (body ++ "}").
Proof.
  unfold no_brace. induction body as [|c body IH]; cbn; intros Hb.
  - constructor.
  - apply andb_prop in Hb as [Ho Hc].
    apply andb_prop in Ho as [Ho Ho']. apply andb_prop in Hc as [Hc Hc'].
    constructor.
    + unfold is_brace. apply negb_true_iff in Ho, Hc. now rewrite Ho, Hc.
    + apply IH. now rewrite Ho', Hc'.
Qed.

Lemma search_braces_after_plain (p g post : string) :
  lacks "{" p = true -> brace_balanced g ->
  search_braces (p ++ g ++ post) = Some g.
Proof.
  intros Hp Hg. induction p as [|c p IH].
  - cbn [append]. destruct g as [|a g]; [now destruct Hg as [t [Ht _]]|].
    cbn [append search_braces].
    change (String a (g ++ post)) with (String a g ++ post).
    now rewrite (braces_at_complete _ post Hg).
  - cbn in Hp. apply andb_prop in Hp as [Hc Hp]. apply negb_true_iff in Hc.
    cbn [append search_braces]. unfold braces_at at 1. rewrite Hc.
    now apply IH.
Qed.

Section ParserResults.

Context `{JsonLib}.


(** In a text with one brace pair, a fenced block can only hold that pair. *)
Lemma search_fenced_flat (p body s g : string) :
  no_brace p = true -> no_brace body = true -> no_brace s = true ->
  search_fenced (p ++ ("{" ++ body ++ "}") ++ s) = Some g ->
  g = "{" ++ body ++ "}".
Proof.
  unfold no_brace. intros Hp Hb Hs Hg.
  apply andb_prop in Hp as [Hpo Hpc]. apply andb_prop in Hb as [Hbo Hbc].
  apply andb_prop in Hs as [Hso Hsc].
  destruct (search_fenced_shape _ _ Hg)
    as [pre [tag [ws1 [body' [ws2 [post [Ht [Hg' _]]]]]]]].
  subst g.
  assert (Ht' : p ++ String "{" (body ++ String "}" s)
                = (pre ++ fence ++ tag ++ ws1)
                    ++ String "{" (body' ++ String "}" (ws2 ++ fence ++ post))).
  { transitivity (p ++ ("{" ++ body ++ "}") ++ s).
    - now rewrite !append_assoc.
    - rewrite Ht. now rewrite !append_assoc. }
  apply lacks_split_unique in Ht' as [_ Ht']; [|assumption|].
  - symmetry in Ht'. apply lacks_split_unique in Ht' as [Hbody _];
      [now subst body' | assumption | assumption].
  - rewrite lacks_app. cbn. now rewrite Hbo, Hso.
Qed.

(** C7, amended.  A record whose text has no brace but its own pair,
    embedded in text without braces (plain or in a fenced block), comes back
    as [json.loads] reads the record alone: every field, [score] and
    [is_acceptable] among them, is the embedded one. *)
Theorem extract_embedded_flat_record (p body s : string) (v : pyval) :
  no_brace p = true -> no_brace body = true -> no_brace s = true ->
  json_loads ("{" ++ body ++ "}") = Some v ->
  extract_json_from_text (p ++ ("{" ++ body ++ "}") ++ s) = v.
Proof.
  intros Hp Hb Hs Hv. unfold extract_json_from_text, try_loads.
  destruct (search_fenced _) as [g|] eqn:Ef.
  - rewrite (search_fenced_flat _ _ _ _ Hp Hb Hs Ef). now rewrite Hv.
  - rewrite search_braces_after_plain.
    + now rewrite Hv.
    + unfold no_brace in Hp. now apply andb_prop in Hp as [Hp _].
    + exists (body ++ "}"). split; [reflexivity | now apply no_brace_run].
Qed.

End ParserResults.

(** ** Results on the parser and the key check *)

Section AttemptResults.

Context `{JsonLib}.



End AttemptResults.



(** The amended C7 on a fenced reply with text around the block. *)
Lemma extract_embedded_flat_record_witness :
  extract_json_from_text (H := python_json)
    ("Here is my verdict: ```json " ++ ("{" ++ good_record_body ++ "}")
       ++ " ``` I hope it helps.")
  = PDict good_record.
Proof.
  apply (extract_embedded_flat_record (H := python_json));
    reflexivity.
Defined.

(** C7 as stated fails: the record of [braces_then_record] is well formed,
    but the text before it has a brace pair of its own, the second pattern
    stops there, and nothing is extracted.  The evaluate step then scores
    the draft 5 where the record says 8. *)
Lemma embedded_record_not_extracted :
  braces_then_record = "Use {curly} braces. " ++ ("{" ++ good_record_body ++ "}")
  /\ json_loads (JsonLib := python_json) ("{" ++ good_record_body ++ "}")
     = Some (PDict good_record)
  /\ extract_json_from_text (H := python_json) braces_then_record = PNone
  /\ evaluate_answer_node (H := python_json) (ModelReturns braces_then_record) drafted_state
     = Ret (evaluation_patch (fallback_evaluation 1 1)).
Proof. repeat split. Qed.

(** ** Results on the search step *)

Lemma append_nonempty_r (s1 s2 : string) : s2 <> "" -> s1 ++ s2 <> "".
Proof. destruct s1; cbn; [trivial | discriminate]. Qed.

Lemma append_nonempty_l (s1 s2 : string) : s1 <> "" -> s1 ++ s2 <> "".
Proof. destruct s1; cbn; [intros Hn; now contradiction Hn | discriminate]. Qed.

Lemma concat_nonempty (sep line : string) (rest : list string) :
  line <> "" -> String.concat sep (line :: rest) <> "".
Proof.
  intros Hl. cbn. destruct rest; [assumption | now apply append_nonempty_l].
Qed.

Lemma format_result_nonempty (idx : Z) (r : search_item) (line : string) :
  format_result idx r = Ret line -> line <> "".
Proof.
  destruct r as [content url|]; cbn; [|discriminate].
  intros Hl. inversion Hl. now apply append_nonempty_r.
Qed.

Lemma neqb_empty (s : string) : s <> "" -> negb (s =? "") = true.
Proof. intros Hs. apply negb_true_iff. now apply String.eqb_neq. Qed.

(** The search step returns a [search_results] patch or raises; the text is
    empty only when the collaborator returned no result. *)
Lemma search_tool_node_patch (reply : search_reply) (state patch : QAState) :
  search_tool_node reply state = Ret patch ->
  exists s, patch = search_patch s /\ (failed_or_found reply -> s <> "").
Proof.
  unfold search_tool_node, failed_or_found.
  destruct reply as [| |results]; [discriminate| |];
    (destruct (question state); [|discriminate]); intros Hp.
  - inversion Hp. exists search_unavailable.
    split; [reflexivity | intros _; unfold search_unavailable; discriminate].
  - destruct (format_results 1 results) as [lines|e] eqn:Ef.
    + inversion Hp. eexists; split; [reflexivity|].
      intros Hne. destruct results as [|r results]; [now contradiction Hne|].
      cbn [format_results] in Ef.
      destruct (format_result 1 r) as [line|] eqn:El; cbn [bind] in Ef;
        [|discriminate].
      destruct (format_results _ results); cbn [bind] in Ef; [|discriminate].
      inversion Ef. apply concat_nonempty. now apply format_result_nonempty in El.
    + inversion Hp. exists search_unavailable.
      split; [reflexivity | intros _; unfold search_unavailable; discriminate].
Qed.

(** C6, amended.  With the question in the state, a failure of the search
    call (an exception or a timeout out of [invoke], or a result that cannot
    be formatted) gives the patch [{search_results: "Search unavailable"}],
    and whatever the call does the step returns a patch: such a failure is
    not propagated.  An empty response is no failure to the step: it gives
    [{search_results: ""}]. *)
Theorem search_failure_gives_sentinel (state : QAState) :
  question state <> None ->
  search_tool_node SearchInvokeFails state = Ret (search_patch search_unavailable)
  /\ (forall results e,
        format_results 1 results = Raise e ->
        search_tool_node (SearchReturns results) state
        = Ret (search_patch search_unavailable))
  /\ (forall reply,
        reply <> SearchSetupFails ->
        exists s, search_tool_node reply state = Ret (search_patch s))
  /\ search_tool_node (SearchReturns []) state = Ret (search_patch "").
Proof.
  intros Hq. unfold search_tool_node.
  destruct (question state); [|contradiction].
  split; [reflexivity|]. split; [|split; [|reflexivity]].
  - intros results e Hf. now rewrite Hf.
  - intros [| |results] Hr; [contradiction | eauto |].
    destruct (format_results 1 results); eauto.
Qed.

(** C6, amended, on a response with an element that is no mapping. *)
Lemma search_failure_gives_sentinel_witness :
  search_tool_node (SearchReturns [HitDict (Some "Four.") None; HitOther]) drafted_state
  = Ret (search_patch search_unavailable).
Proof.
  destruct (search_failure_gives_sentinel drafted_state) as (_ & Hbad & _);
    [discriminate|].
  apply (Hbad _ AttributeError). reflexivity.
Defined.

(** C6 as stated fails on an empty response: the step returns the empty
    string, not the sentinel. *)
Lemma empty_response_is_not_sentinel :
  search_tool_node (SearchReturns []) drafted_state = Ret (search_patch "")
  /\ search_patch "" <> search_patch search_unavailable.
Proof. split; [reflexivity | discriminate]. Qed.

(** ** Results on the steps and on whole runs *)

Lemma should_continue_search_unset (st : QAState) :
  should_continue st = Ret search -> truthy_str (search_results st) = false.
Proof.
  unfold should_continue. destruct (_ <=? _)%Z; [discriminate|].
  destruct (match evaluation st with Some e => e | None => Some [] end) as [ev|];
    [|discriminate].
  destruct (if truthy _ then _ else _) as [[|]|]; cbn [bind]; try discriminate.
  destruct (truthy (get_default ev "needs_search" (PBool false))); cbn;
    [|discriminate].
  now destruct (truthy_str (search_results st)).
Qed.

Lemma should_continue_below_bound (st : QAState) (r : route) :
  should_continue st = Ret r -> r <> finalize ->
  (count_of st < bound_of st)%Z.
Proof.
  unfold should_continue, count_of, bound_of.
  destruct (_ <=? _)%Z eqn:E; intros Hr Hne.
  - inversion Hr. now subst r.
  - now apply Z.leb_gt in E.
Qed.

Lemma generate_answer_node_patch (reply : llm_reply) (st p : QAState) :
  generate_answer_node reply st = Ret p ->
  exists draft, p = draft_patch draft (count_of st + 1).
Proof.
  unfold generate_answer_node, count_of.
  destruct reply as [| |draft]; try discriminate;
    (destruct (question st); [|discriminate]); [discriminate|].
  intros Hp. inversion Hp. now exists draft.
Qed.

Lemma reflection_node_patch (st p : QAState) :
  reflection_node st = Ret p -> exists l, p = reflections_patch l.
Proof.
  unfold reflection_node.
  destruct (match evaluation st with Some e => e | None => Some [] end) as [ev|];
    [|discriminate].
  destruct (if truthy (get_default ev "weaknesses" PNone) then _ else _) as [r1|];
    cbn [bind]; [|discriminate].
  destruct (if truthy (get_default ev "suggestions" PNone) then _ else _) as [r2|];
    cbn [bind]; [|discriminate].
  intros Hp. inversion Hp. eauto.
Qed.

Section RunResults.

Context `{JsonLib}.

Lemma evaluate_answer_node_patch (reply : llm_reply) (st p : QAState) :
  evaluate_answer_node reply st = Ret p -> exists d, p = evaluation_patch d.
Proof.
  unfold evaluate_answer_node.
  destruct reply as [| |content]; try discriminate;
    (destruct (question st); [|discriminate]);
    (destruct (draft_answer st) as [draft|]; [|discriminate]); [discriminate|].
  destruct (if truthy _ then _ else _) as [[|]|]; cbn [bind]; [| |discriminate].
  - destruct (extract_json_from_text content); try discriminate.
    intros Hp. inversion Hp. eauto.
  - destruct draft; [|discriminate]. intros Hp. inversion Hp. eauto.
Qed.

Lemma finalize_answer_node_patch (reply : llm_reply) (st p : QAState) :
  finalize_answer_node reply st = Ret p -> exists final, p = final_patch final.
Proof.
  unfold finalize_answer_node.
  destruct reply as [| |final]; try discriminate;
    (destruct (question st); [|discriminate]);
    (destruct (draft_answer st); [|discriminate]); [discriminate|].
  intros Hp. inversion Hp. eauto.
Qed.

Variable w : World.

(** What one step does to the state, node by node. *)
Lemma step_next (c c' : config) :
  step w c = Next c' ->
  match at_node c with
  | node_generate_answer =>
      at_node c' = node_evaluate
      /\ exists draft,
           state_of c' = merge (state_of c) (draft_patch draft (count_of (state_of c) + 1))
  | node_evaluate =>
      (exists d r,
         state_of c' = merge (state_of c) (evaluation_patch d)
         /\ should_continue (state_of c') = Ret r
         /\ r <> finalize /\ at_node c' = node_of_route r)
      \/ (exists d,
          state_of c' = merge (state_of c) (evaluation_patch d)
          /\ at_node c' = node_finalize)
  | node_search =>
      at_node c' = node_generate_answer
      /\ exists s,
           state_of c' = merge (state_of c) (search_patch s)
           /\ (failed_or_found (searcher w (search_calls c)) -> s <> "")
  | node_reflect =>
      at_node c' = node_generate_answer
      /\ exists l, state_of c' = merge (state_of c) (reflections_patch l)
  | node_finalize => False
  end.
Proof.
  unfold step. destruct (at_node c).
  - destruct (generate_answer_node _ _) as [p|] eqn:E; [|discriminate].
    intros Hc; inversion Hc. apply generate_answer_node_patch in E as [draft ->].
    split; [reflexivity | now exists draft].
  - destruct (search_tool_node _ _) as [p|] eqn:E; [|discriminate].
    intros Hc; inversion Hc. apply search_tool_node_patch in E as [s [-> Hs]].
    split; [reflexivity | now exists s].
  - destruct (evaluate_answer_node _ _) as [p|] eqn:E; [|discriminate].
    apply evaluate_answer_node_patch in E as [d ->].
    destruct (should_continue _) as [r|] eqn:Er; [|discriminate].
    intros Hc; inversion Hc. cbn [state_of at_node after_model].
    destruct r; [left; exists d, search | left; exists d, reflect | right; exists d];
      repeat split; try assumption; discriminate.
  - destruct (reflection_node _) as [p|] eqn:E; [|discriminate].
    intros Hc; inversion Hc. apply reflection_node_patch in E as [l ->].
    split; [reflexivity | now exists l].
  - destruct (finalize_answer_node _ _); discriminate.
Qed.

Lemma step_end (c : config) (final : QAState) :
  step w c = End final ->
  at_node c = node_finalize
  /\ exists text, final = merge (state_of c) (final_patch text).
Proof.
  unfold step. destruct (at_node c).
  - destruct (generate_answer_node _ _); discriminate.
  - destruct (search_tool_node _ _); discriminate.
  - destruct (evaluate_answer_node _ _); [|discriminate].
    destruct (should_continue _); discriminate.
  - destruct (reflection_node _); discriminate.
  - destruct (finalize_answer_node _ _) as [p|] eqn:E; [|discriminate].
    intros Hf; inversion Hf. apply finalize_answer_node_patch in E as [text ->].
    split; [reflexivity | now exists text].
Qed.

Lemma run_succ (fuel : nat) (c : config) :
  run (S fuel) w c
  = match step w c with
    | Next c' => (fst (run fuel w c'), at_node c :: snd (run fuel w c'))
    | End final => (Finished final, [at_node c])
    | Abort e => (Aborted e, [at_node c])
    end.
Proof. cbn [run]. destruct (step w c); [now destruct (run fuel w c0)| |]; reflexivity. Qed.

Lemma step_keeps_search_set (c c' : config) :
  step w c = Next c' ->
  truthy_str (search_results (state_of c)) = true ->
  at_node c <> node_search ->
  truthy_str (search_results (state_of c')) = true /\ at_node c' <> node_search.
Proof.
  intros Es Hset Hnode. apply step_next in Es.
  destruct (at_node c); try contradiction.
  - destruct Es as [Hn [draft ->]]. rewrite Hn. split; [exact Hset | discriminate].
  - destruct Es as [[d [r [Hst [Hr [Hne Hn]]]]]|[d [-> Hn]]]; rewrite Hn.
    + assert (Hset' : truthy_str (search_results (state_of c')) = true)
        by (rewrite Hst; exact Hset).
      split; [exact Hset'|].
      destruct r; try discriminate.
      apply should_continue_search_unset in Hr. congruence.
    + split; [exact Hset | discriminate].
  - destruct Es as [Hn [l ->]]. rewrite Hn. split; [exact Hset | discriminate].
Qed.

(** Once [search_results] holds a non-empty text, the run never enters the
    search node again. *)
Lemma no_search_once_set (fuel : nat) (c : config) :
  truthy_str (search_results (state_of c)) = true ->
  at_node c <> node_search ->
  times_run node_search (snd (run fuel w c)) = 0%nat.
Proof.
  revert c. induction fuel as [|fuel IH]; intros c Hset Hnode; [reflexivity|].
  assert (Hhere : node_eqb node_search (at_node c) = false)
    by (destruct (at_node c); try reflexivity; now contradiction Hnode).
  rewrite run_succ. destruct (step w c) as [c'| |] eqn:Es;
    cbn [snd times_run]; rewrite Hhere; [|reflexivity|reflexivity].
  destruct (step_keeps_search_set _ _ Es Hset Hnode) as [Hset' Hnode'].
  now rewrite IH.
Qed.

Lemma search_at_most_once_from (fuel : nat) (c : config) :
  (forall n, failed_or_found (searcher w n)) ->
  (times_run node_search (snd (run fuel w c)) <= 1)%nat.
Proof.
  intros Hw. revert c. induction fuel as [|fuel IH]; intros c; [cbn; lia|].
  rewrite run_succ. destruct (step w c) as [c'| |] eqn:Es.
  - cbn [snd times_run]. destruct (at_node c) eqn:En; cbn [node_eqb];
      try (specialize (IH c'); lia).
    apply step_next in Es. rewrite En in Es. destruct Es as [Hn [s [Hst Hs]]].
    rewrite (no_search_once_set fuel c'); [lia| |rewrite Hn; discriminate].
    rewrite Hst. cbn. apply neqb_empty. apply Hs, Hw.
  - cbn [snd times_run]. destruct (node_eqb node_search (at_node c)); lia.
  - cbn [snd times_run]. destruct (node_eqb node_search (at_node c)); lia.
Qed.

End RunResults.

(** C5, amended.  Once [search_results] holds a non-empty text, the failure
    sentinel included, the router never answers [search], whatever the
    evaluation says.  So in every run whose search collaborator fails or
    finds something each time it is called, the search node runs at most
    once.  (An empty response leaves [search_results] empty and does not
    block a second search.) *)
Theorem search_runs_at_most_once `{JsonLib} :
  (forall st,
     truthy_str (search_results st) = true -> should_continue st <> Ret search)
  /\ (forall reply st patch,
        failed_or_found reply ->
        search_tool_node reply st = Ret patch ->
        truthy_str (search_results (merge st patch)) = true)
  /\ (forall fuel w init,
        (forall n, failed_or_found (searcher w n)) ->
        (times_run node_search (snd (invoke fuel w init)) <= 1)%nat).
Proof.
  split; [|split].
  - intros st Hset Hr. apply should_continue_search_unset in Hr. congruence.
  - intros reply st patch Hok Hp.
    apply search_tool_node_patch in Hp as [s [-> Hs]].
    cbn. now apply neqb_empty, Hs.
  - intros fuel w init Hw. now apply search_at_most_once_from.
Qed.

(** The amended C5 on a run whose search is down: the evaluation asks for a
    search three times, the search runs once. *)
Lemma search_runs_at_most_once_witness :
  times_run node_search
    (snd (invoke (H := python_json) 20 failing_search_world (initial_state "Why?" 3)))
  = 1%nat
  /\ (times_run node_search
        (snd (invoke (H := python_json) 20 failing_search_world (initial_state "Why?" 3)))
      <= 1)%nat.
Proof.
  split; [reflexivity|].
  apply (search_runs_at_most_once (H := python_json)).
  intros n. discriminate.
Defined.

(** C5 as stated fails: a search that finds nothing sets [search_results] to
    the empty text, the next evaluation asks for a search again, and the
    search node runs a second time. *)
Lemma search_runs_twice_on_empty_response :
  snd (invoke (H := python_json) 20 empty_search_world (initial_state "Why?" 3))
  = [ node_generate_answer; node_evaluate; node_search;
      node_generate_answer; node_evaluate; node_search;
      node_generate_answer; node_evaluate; node_finalize ]
  /\ search_results
       (merge (initial_state "Why?" 3) (search_patch "")) = Some (Some "").
Proof. split; reflexivity. Qed.

(** ** The iteration counter *)

Section CounterResults.

Context `{JsonLib}.

Variable w : World.

Lemma step_counter (c c' : config) :
  step w c = Next c' ->
  count_of (state_of c') = (count_of (state_of c) + generate_steps (at_node c))%Z
  /\ max_iterations (state_of c') = max_iterations (state_of c)
  /\ (counter_in_bounds c -> counter_in_bounds c').
Proof.
  intros Es. apply step_next in Es. unfold counter_in_bounds, generate_steps.
  destruct (at_node c).
  - destruct Es as [Hn [draft ->]]. rewrite Hn. cbn [node_eqb].
    repeat split; cbn; unfold bound_of in *; cbn; try lia. discriminate.
  - destruct Es as [Hn [s [-> _]]]. rewrite Hn. cbn [node_eqb].
    repeat split; cbn; unfold count_of, bound_of in *; cbn; lia.
  - destruct Es as [[d [r [Hst [Hr [Hne Hn]]]]]|[d [Hst Hn]]]; rewrite Hn;
      cbn [node_eqb].
    + assert (Hlt := should_continue_below_bound _ _ Hr Hne).
      rewrite Hst in *. unfold count_of, bound_of in *. cbn in *.
      destruct (iteration_count (state_of c)), r; cbn;
        repeat split; try lia; try congruence.
    + rewrite Hst. unfold count_of, bound_of. cbn.
      destruct (iteration_count (state_of c)); repeat split; try lia; tauto.
  - destruct Es as [Hn [l ->]]. rewrite Hn. cbn [node_eqb].
    unfold count_of, bound_of. cbn.
    destruct (iteration_count (state_of c)); repeat split; lia.
  - contradiction.
Qed.

Lemma run_counter (fuel : nat) (c : config) (final : QAState) (trace : list node) :
  run fuel w c = (Finished final, trace) ->
  count_of final
  = (count_of (state_of c) + Z.of_nat (times_run node_generate_answer trace))%Z
  /\ max_iterations final = max_iterations (state_of c)
  /\ (counter_in_bounds c ->
      (count_of final <= bound_of final)%Z /\ iteration_count final <> None).
Proof.
  revert c trace. induction fuel as [|fuel IH]; intros c trace Hrun;
    [discriminate|].
  rewrite run_succ in Hrun. destruct (step w c) as [c'| |] eqn:Es.
  - inversion Hrun as [[Hfst Htr]].
    destruct (IH c' (snd (run fuel w c'))) as (Hc & Hm & Hb).
    { rewrite <- Hfst. now destruct (run fuel w c'). }
    destruct (step_counter _ _ Es) as (Hc' & Hm' & Hb').
    cbn [times_run]. unfold generate_steps in Hc'.
    repeat split.
    + rewrite Hc, Hc'. destruct (node_eqb _ _); lia.
    + congruence.
    + now apply Hb, Hb'.
    + now apply Hb, Hb'.
  - inversion Hrun; subst. apply step_end in Es as [Hn [text ->]].
    unfold counter_in_bounds. rewrite Hn. cbn [times_run node_eqb].
    unfold count_of, bound_of. cbn.
    destruct (iteration_count (state_of c)); repeat split; try lia; tauto.
  - discriminate.
Qed.

End CounterResults.

Section Termination.

Context `{JsonLib}.

Variable w : World.

Lemma step_uses_one (c c' : config) :
  step w c = Next c' -> (1 + steps_left c' <= steps_left c)%nat.
Proof.
  intros Es. destruct (step_counter w _ _ Es) as (Hc & Hm & _).
  assert (Hb : bound_of (state_of c') = bound_of (state_of c))
    by (unfold bound_of; now rewrite Hm).
  apply step_next in Es. unfold steps_left, generate_steps in *. rewrite Hc, Hb.
  destruct (at_node c); cbn [node_eqb] in *.
  - destruct Es as [-> _].
    destruct (Z.to_nat (bound_of (state_of c) - (count_of (state_of c) + 1))) eqn:E;
      lia.
  - destruct Es as [-> _]. rewrite Z.add_0_r. lia.
  - destruct Es as [[d [r [_ [Hr [Hne Hn]]]]]|[d [_ ->]]].
    + apply should_continue_below_bound in Hr; [|assumption].
      rewrite Hc, Hb in Hr. rewrite Hn, Z.add_0_r in *.
      destruct (Z.to_nat (bound_of (state_of c) - count_of (state_of c))) eqn:E;
        [lia|]. destruct r; cbn; lia.
    + destruct (Z.to_nat _); lia.
  - destruct Es as [-> _]. rewrite Z.add_0_r. lia.
  - contradiction.
Qed.

(** Every run ends: with enough fuel the graph reaches [END] or a node
    raises. *)
Lemma run_terminates (fuel : nat) (c : config) :
  (steps_left c <= fuel)%nat -> fst (run fuel w c) <> OutOfFuel.
Proof.
  revert c. induction fuel as [|fuel IH]; intros c Hfuel.
  - unfold steps_left in Hfuel. destruct (at_node c); try lia.
    destruct (Z.to_nat _); lia.
  - rewrite run_succ. destruct (step w c) as [c'| |] eqn:Es; cbn; try discriminate.
    apply IH. apply step_uses_one in Es. lia.
Qed.

End Termination.

(** C3.  The generate step writes [iteration_count + 1] (a missing count is
    0), and none of the other four steps writes the key.  So for a run that
    is entered with the count at 0 or missing and a bound of at least 1 and
    that reaches [END], the final count is the number of generate steps of
    the run and is at most [max_iterations], which no step changes.  Such a
    run ends within three steps per iteration of the bound. *)
Theorem iteration_count_counts_generate `{JsonLib} :
  (forall reply st patch,
     generate_answer_node reply st = Ret patch ->
     iteration_count (merge st patch) = Some (count_of st + 1)%Z)
  /\ (forall reply st patch,
        search_tool_node reply st = Ret patch ->
        iteration_count (merge st patch) = iteration_count st)
  /\ (forall reply st patch,
        evaluate_answer_node reply st = Ret patch ->
        iteration_count (merge st patch) = iteration_count st)
  /\ (forall st patch,
        reflection_node st = Ret patch ->
        iteration_count (merge st patch) = iteration_count st)
  /\ (forall reply st patch,
        finalize_answer_node reply st = Ret patch ->
        iteration_count (merge st patch) = iteration_count st)
  /\ (forall fuel w init final trace,
        count_of init = 0%Z ->
        (1 <= bound_of init)%Z ->
        invoke fuel w init = (Finished final, trace) ->
        iteration_count final
        = Some (Z.of_nat (times_run node_generate_answer trace))
        /\ (Z.of_nat (times_run node_generate_answer trace) <= bound_of init)%Z
        /\ max_iterations final = max_iterations init)
  /\ (forall fuel w init,
        (1 <= bound_of init)%Z ->
        (3 * Z.to_nat (bound_of init) <= fuel)%nat ->
        count_of init = 0%Z ->
        fst (invoke fuel w init) <> OutOfFuel).
Proof.
  repeat match goal with |- _ /\ _ => split end.
  - intros reply st patch Hp. now apply generate_answer_node_patch in Hp as [draft ->].
  - intros reply st patch Hp.
    apply search_tool_node_patch in Hp as [s [-> _]]. reflexivity.
  - intros reply st patch Hp. now apply evaluate_answer_node_patch in Hp as [d ->].
  - intros st patch Hp. now apply reflection_node_patch in Hp as [l ->].
  - intros reply st patch Hp. now apply finalize_answer_node_patch in Hp as [t ->].
  - intros fuel w init final trace Hzero Hbound Hrun.
    apply run_counter in Hrun as (Hc & Hm & Hb).
    cbn [state_of] in *. rewrite Hzero, Z.add_0_l in Hc.
    destruct Hb as [Hle Hsome]; [unfold counter_in_bounds; cbn; lia|].
    assert (Hbd : bound_of final = bound_of init)
      by (unfold bound_of; now rewrite Hm).
    repeat split; [|lia|assumption].
    unfold count_of in Hc. destruct (iteration_count final); [|contradiction].
    now rewrite Hc.
  - intros fuel w init Hbound Hfuel Hzero. apply run_terminates.
    unfold steps_left. cbn [at_node state_of]. rewrite Hzero, Z.sub_0_r. lia.
Qed.

(** C3 on a run of three iterations. *)
Lemma iteration_count_counts_generate_witness :
  iteration_count (final_of three_round_run) = Some 3%Z.
Proof.
  destruct (iteration_count_counts_generate (H := python_json))
    as (_ & _ & _ & _ & _ & Hrun & _).
  destruct (Hrun 20%nat failing_search_world (initial_state "Why?" 3)
              (final_of three_round_run) (snd three_round_run))
    as (Hcount & _);
    [reflexivity | vm_compute; discriminate | vm_compute; reflexivity |].
  rewrite Hcount. vm_compute. reflexivity.
Defined.

(** ** Results on the session store *)

Lemma ltb_asym (a b : string) : (a <? b)%string = true -> (b <? a)%string = false.
Proof.
  unfold String.ltb. rewrite (String.compare_antisym a b).
  now destruct (String.compare b a).
Qed.

Lemma ltb_leb (a b : string) : (a <? b)%string = true -> (a <=? b)%string = true.
Proof. unfold String.ltb, String.leb. now destruct (String.compare a b). Qed.

Lemma nltb_leb (a b : string) : (a <? b)%string = false -> (b <=? a)%string = true.
Proof.
  unfold String.ltb, String.leb. rewrite (String.compare_antisym b a).
  now destruct (String.compare a b).
Qed.

(** *** The sort *)

Lemma insert_desc_perm (x : string * Session) (l : list (string * Session)) :
  Permutation (insert_desc x l) (x :: l).
Proof.
  induction l as [|y l IH]; cbn; [reflexivity|].
  destruct (fst x <? fst y)%string; [|reflexivity].
  rewrite IH. apply perm_swap.
Qed.

Lemma sort_desc_perm (l : list (string * Session)) : Permutation (sort_desc l) l.
Proof.
  induction l as [|x l IH]; cbn; [reflexivity|].
  rewrite insert_desc_perm. now constructor.
Qed.

Lemma insert_desc_top (x : string * Session) (l : list (string * Session)) :
  keys_below (fst x) l -> insert_desc x l = x :: l.
Proof.
  destruct l as [|y l]; [reflexivity|]. intros Hl. inversion Hl; subst.
  cbn. now rewrite ltb_asym.
Qed.

Lemma sort_desc_top (l1 l2 : list (string * Session)) (x : string * Session) :
  keys_below (fst x) l1 -> keys_below (fst x) l2 ->
  sort_desc (l1 ++ x :: l2)%list = x :: sort_desc (l1 ++ l2)%list.
Proof.
  intros H1 H2. induction l1 as [|y l1 IH]; cbn.
  - apply insert_desc_top. unfold keys_below.
    apply (Permutation_Forall (Permutation_sym (sort_desc_perm l2))). exact H2.
  - inversion H1; subst. rewrite IH by assumption. cbn. now rewrite H3.
Qed.

Lemma insert_desc_sorted (x : string * Session) (l : list (string * Session)) :
  Sorted key_order l -> Sorted key_order (insert_desc x l).
Proof.
  induction l as [|y l IH]; intros Hs; cbn.
  - repeat constructor.
  - destruct (fst x <? fst y)%string eqn:E.
    + apply Sorted_inv in Hs as [Hs Hhd]. constructor; [now apply IH|].
      destruct l as [|z l]; cbn.
      * constructor. now apply ltb_leb.
      * destruct (fst x <? fst z)%string.
        -- constructor. now inversion Hhd.
        -- constructor. now apply ltb_leb.
    + constructor; [assumption|]. constructor. now apply nltb_leb.
Qed.

Lemma sort_desc_sorted (l : list (string * Session)) : Sorted key_order (sort_desc l).
Proof.
  induction l as [|x l IH]; cbn; [constructor | now apply insert_desc_sorted].
Qed.

Lemma Sorted_firstn {A : Type} (R : A -> A -> Prop) (n : nat) (l : list A) :
  Sorted R l -> Sorted R (firstn n l).
Proof.
  revert l. induction n as [|n IH]; intros l Hs; [constructor|].
  destruct l as [|x l]; [constructor|]. cbn.
  apply Sorted_inv in Hs as [Hs Hhd]. constructor; [now apply IH|].
  destruct l as [|y l]; [destruct n; constructor|].
  destruct n; cbn; constructor. now inversion Hhd.
Qed.

(** *** Decorating with the keys *)

Lemma decorate_spec (sessions : list Session) (keyed : list (string * Session)) :
  decorate sessions = Ret keyed ->
  map snd keyed = sessions /\ Forall keyed_by_timestamp keyed.
Proof.
  revert keyed. induction sessions as [|s sessions IH]; intros keyed Hd; cbn in Hd.
  - inversion Hd. split; constructor.
  - unfold timestamp_key in Hd. destruct (s_timestamp s) as [t|] eqn:Et;
      cbn [bind] in Hd; [|discriminate].
    destruct (decorate sessions) as [rest|]; cbn [bind] in Hd; [|discriminate].
    inversion Hd. destruct (IH rest eq_refl) as [Hm Hk].
    split; [cbn; now rewrite Hm | constructor; assumption].
Qed.

Lemma decorate_app (l1 l2 : list Session) (s : Session) (t : string) :
  s_timestamp s = Some t ->
  Forall (fun x => earlier_than t x = true) l1 ->
  Forall (fun x => earlier_than t x = true) l2 ->
  exists d1 d2,
    decorate (l1 ++ s :: l2)%list = Ret (d1 ++ (t, s) :: d2)%list
    /\ keys_below t d1 /\ keys_below t d2.
Proof.
  intros Hs H1 H2.
  assert (Hplain : forall l, Forall (fun x => earlier_than t x = true) l ->
            exists d, decorate l = Ret d /\ keys_below t d).
  { induction l as [|x l IH]; intros Hl.
    - exists []. split; constructor.
    - inversion Hl; subst. destruct (IH H4) as [d [Hd Hk]].
      unfold earlier_than in H3. destruct (s_timestamp x) as [tx|] eqn:Ex;
        [|discriminate].
      exists ((tx, x) :: d). cbn. unfold timestamp_key. rewrite Ex, Hd.
      split; [reflexivity | now constructor]. }
  destruct (Hplain l2 H2) as [d2 [Hd2 Hk2]].
  induction l1 as [|x l1 IH].
  - exists [], d2. cbn. unfold timestamp_key. rewrite Hs, Hd2.
    repeat split; [constructor | assumption].
  - inversion H1; subst. destruct (IH H4) as [d1 [d2' [Hd [Hk1 Hk2']]]].
    unfold earlier_than in H3. destruct (s_timestamp x) as [tx|] eqn:Ex;
      [|discriminate].
    exists ((tx, x) :: d1), d2'. cbn. unfold timestamp_key. rewrite Ex.
    cbn in Hd. rewrite Hd. repeat split; [now constructor | assumption].
Qed.

(** *** The store around the current session *)

Lemma find_session_split (id : string) (l1 l2 : list Session) (s : Session) :
  Forall (other_id id) l1 -> s_session_id s = id ->
  find_session (l1 ++ s :: l2)%list id = Some s.
Proof.
  intros H1 Hs. induction l1 as [|x l1 IH]; cbn.
  - now rewrite Hs, String.eqb_refl.
  - inversion H1; subst. unfold other_id in H2. rewrite H2. now apply IH.
Qed.

Lemma replace_session_split (l1 l2 : list Session) (s sd : Session) :
  Forall (other_id (s_session_id sd)) l1 -> s_session_id s = s_session_id sd ->
  replace_session (l1 ++ s :: l2)%list sd = Some (l1 ++ sd :: l2)%list.
Proof.
  intros H1 Hs. induction l1 as [|x l1 IH]; cbn.
  - now rewrite Hs, String.eqb_refl.
  - inversion H1; subst. unfold other_id in H2. rewrite H2. now rewrite IH.
Qed.

Lemma replace_session_cases (l : list Session) (sd : Session) :
  (exists l1 old l2,
     l = (l1 ++ old :: l2)%list
     /\ Forall (other_id (s_session_id sd)) l1
     /\ replace_session l sd = Some (l1 ++ sd :: l2)%list)
  \/ (Forall (other_id (s_session_id sd)) l /\ replace_session l sd = None).
Proof.
  induction l as [|x l IH]; cbn.
  - right. split; constructor.
  - destruct (s_session_id x =? s_session_id sd) eqn:E.
    + left. exists [], x, l. repeat split. constructor.
    + destruct IH as [[l1 [old [l2 [Hl [H1 Hr]]]]]|[Hall Hr]].
      * left. exists (x :: l1), old, l2. rewrite Hr, Hl.
        repeat split. now constructor.
      * right. rewrite Hr. split; [now constructor | reflexivity].
Qed.

Lemma no_current_session_false (id : string) (self : MemoryManager) :
  current_session_id self = Some id -> id <> "" -> no_current_session self = false.
Proof.
  unfold no_current_session. intros -> Hid. now apply String.eqb_neq.
Qed.

Lemma store_load (id : string) (l1 l2 : list Session) (s : Session) (self : MemoryManager) :
  store_is id l1 s l2 self -> _load_session (current_id self) self = s.
Proof.
  intros (Hf & Hc & _ & Hs & H1). unfold _load_session, current_id, read_sessions.
  now rewrite Hc, Hf, (find_session_split id l1 l2 s H1 Hs).
Qed.

Lemma store_save (id : string) (l1 l2 : list Session) (s sd : Session) (self : MemoryManager) :
  store_is id l1 s l2 self -> s_session_id sd = id ->
  store_is id l1 sd l2 (_save_session sd self).
Proof.
  intros (Hf & Hc & Hid & Hs & H1) Hsd. unfold _save_session, read_sessions.
  rewrite Hf, replace_session_split; [|now rewrite Hsd|congruence].
  repeat split; try assumption.
Qed.

(** [create_session] puts the new session in place of the first one with
    its id, or at the end. *)
Lemma create_session_store (now_id now_iso q : string) (self : MemoryManager) :
  now_id <> "" ->
  Forall (fun x => earlier_than now_iso x = true) (read_sessions self) ->
  exists l1 l2,
    store_is now_id l1 (plain_session now_id now_iso q) l2
      (snd (create_session now_id now_iso q self))
    /\ Forall (fun x => earlier_than now_iso x = true) l1
    /\ Forall (fun x => earlier_than now_iso x = true) l2.
Proof.
  intros Hid Hall. unfold create_session, _save_session. cbn [snd].
  fold (plain_session now_id now_iso q).
  change (read_sessions _) with (read_sessions self).
  destruct (replace_session_cases (read_sessions self) (plain_session now_id now_iso q))
    as [[l1 [old [l2 [Hl [H1 Hr]]]]]|[H1 Hr]]; rewrite Hr.
  - rewrite Hl in Hall. apply Forall_app in Hall as [Ha1 Ha2].
    inversion Ha2; subst.
    exists l1, l2. repeat split; assumption.
  - exists (read_sessions self), []. repeat split; try assumption. constructor.
Qed.

(** A successful [log_state] appends one entry to the current session and
    leaves its id, timestamp, question and final answer alone. *)
Lemma log_state_store (id : string) (l1 l2 : list Session) (s : Session)
    (now_iso node_name : string) (state : QAState) (self self' : MemoryManager) :
  store_is id l1 s l2 self ->
  log_state now_iso node_name state self = Ret self' ->
  exists s',
    store_is id l1 s' l2 self'
    /\ s_timestamp s' = s_timestamp s
    /\ s_question s' = s_question s
    /\ s_final_answer s' = s_final_answer s
    /\ List.length (s_states s') = S (List.length (s_states s)).
Proof.
  intros Hst Hlog. unfold log_state in Hlog.
  pose proof Hst as (Hf & Hc & Hid & Hs & H1).
  rewrite (no_current_session_false id self Hc Hid) in Hlog.
  rewrite (store_load _ _ _ _ _ Hst) in Hlog.
  destruct (match evaluation state with Some e => e | None => Some [] end);
    [|discriminate].
  inversion Hlog. eexists. split; [apply (store_save id l1 l2 s); [assumption|]|].
  - cbn. exact Hs.
  - cbn. repeat split. rewrite length_app. cbn. lia.
Qed.

Lemma log_all_store (entries : list (string * string * QAState))
    (id : string) (l1 l2 : list Session) (s : Session) (self self' : MemoryManager) :
  store_is id l1 s l2 self ->
  log_all entries self = Ret self' ->
  exists s',
    store_is id l1 s' l2 self'
    /\ s_timestamp s' = s_timestamp s
    /\ s_question s' = s_question s
    /\ s_final_answer s' = s_final_answer s
    /\ List.length (s_states s') = (List.length entries + List.length (s_states s))%nat.
Proof.
  revert s self. induction entries as [|[[now node_name] state] entries IH];
    intros s self Hst Hlog; cbn in Hlog.
  - inversion Hlog; subst. exists s. split; [assumption|]. now repeat split.
  - destruct (log_state now node_name state self) as [self1|] eqn:E;
      cbn [bind] in Hlog; [|discriminate].
    destruct (log_state_store _ _ _ _ _ _ _ _ _ Hst E) as [s1 (Hst1 & Ht & Hq & Hf & Hn)].
    destruct (IH s1 self1 Hst1 Hlog) as [s' (Hst' & Ht' & Hq' & Hf' & Hn')].
    exists s'. split; [assumption|]. repeat split; try congruence. cbn. lia.
Qed.

Lemma save_final_answer_store (id : string) (l1 l2 : list Session) (s : Session)
    (answer : string) (full_state : QAState) (self : MemoryManager) :
  store_is id l1 s l2 self ->
  exists s',
    store_is id l1 s' l2 (save_final_answer answer full_state self)
    /\ s_timestamp s' = s_timestamp s
    /\ s_question s' = s_question s
    /\ s_states s' = s_states s
    /\ s_final_answer s' = Some (Some answer).
Proof.
  intros Hst. unfold save_final_answer.
  pose proof Hst as (Hf & Hc & Hid & Hs & H1).
  rewrite (no_current_session_false id self Hc Hid), (store_load _ _ _ _ _ Hst).
  eexists. split; [apply (store_save id l1 l2 s); [assumption|]|].
  - cbn. exact Hs.
  - cbn. repeat split.
Qed.

(** The session stamped last comes first in the history. *)
Lemma get_session_history_newest (id t : string) (l1 l2 : list Session) (s : Session)
    (self : MemoryManager) :
  store_is id l1 s l2 self ->
  s_timestamp s = Some t ->
  Forall (fun x => earlier_than t x = true) l1 ->
  Forall (fun x => earlier_than t x = true) l2 ->
  get_session_history 1 self = Ret [s].
Proof.
  intros (Hf & _) Ht H1 H2. unfold get_session_history, read_sessions. rewrite Hf.
  destruct (decorate_app l1 l2 s t Ht H1 H2) as [d1 [d2 [Hd [Hk1 Hk2]]]].
  rewrite Hd. cbn [bind]. rewrite sort_desc_top by assumption. reflexivity.
Qed.

Lemma sorted_sessions (keyed : list (string * Session)) :
  Sorted key_order keyed -> Forall keyed_by_timestamp keyed ->
  Sorted not_after (map snd keyed).
Proof.
  induction 1 as [|p keyed Hs IH Hhd]; intros Hk; cbn; [constructor|].
  inversion Hk as [|? ? Hp Hk']; subst. constructor; [now apply IH|].
  destruct Hhd as [|q keyed Hpq]; cbn; constructor.
  inversion Hk' as [|? ? Hq _]; subst.
  exists (fst p), (fst q). now repeat split.
Qed.

Lemma slice_to_firstn {A : Type} (limit : Z) (l : list A) :
  exists n, slice_to limit l = firstn n l /\ (0 <= limit -> n = Z.to_nat limit)%Z.
Proof.
  unfold slice_to. destruct (limit <? 0)%Z eqn:E.
  - eexists. split; [reflexivity|]. apply Z.ltb_lt in E. lia.
  - eexists. split; reflexivity.
Qed.

(** C8, amended.  On a store whose sessions all carry a timestamp that sorts
    strictly before the new one, [create_session], any number of successful
    [log_state] calls and [save_final_answer] leave a session that
    [get_session_history(1)] returns alone, with the question created, the
    answer saved and one state entry per call.  Whatever the store holds,
    the history is the head of the sessions sorted by timestamp, latest
    first, and for a limit of 0 or more it has at most [limit] elements. *)
Theorem session_round_trip :
  (forall self now_id now_iso q entries answer full_state self1,
     now_id <> "" ->
     Forall (fun x => earlier_than now_iso x = true) (read_sessions self) ->
     log_all entries (snd (create_session now_id now_iso q self)) = Ret self1 ->
     exists s,
       get_session_history 1 (save_final_answer answer full_state self1) = Ret [s]
       /\ s_question s = Some q
       /\ s_final_answer s = Some (Some answer)
       /\ List.length (s_states s) = List.length entries)
  /\ (forall limit self l,
        get_session_history limit self = Ret l ->
        Sorted not_after l
        /\ (exists sorted,
              Permutation sorted (read_sessions self) /\ l = slice_to limit sorted)
        /\ ((0 <= limit)%Z -> (Z.of_nat (List.length l) <= limit)%Z)).
Proof.
  split.
  - intros self now_id now_iso q entries answer full_state self1 Hid Hall Hlog.
    destruct (create_session_store now_id now_iso q self Hid Hall)
      as [l1 [l2 (Hst & H1 & H2)]].
    destruct (log_all_store _ _ _ _ _ _ _ Hst Hlog) as [s1 (Hst1 & Ht1 & Hq1 & _ & Hn1)].
    destruct (save_final_answer_store _ _ _ _ answer full_state _ Hst1)
      as [s2 (Hst2 & Ht2 & Hq2 & Hs2 & Hf2)].
    exists s2. split; [|repeat split].
    + apply (get_session_history_newest now_id now_iso l1 l2); try assumption.
      now rewrite Ht2, Ht1.
    + now rewrite Hq2, Hq1.
    + assumption.
    + rewrite Hs2, Hn1. cbn. lia.
  - intros limit self l Hh. unfold get_session_history in Hh.
    destruct (decorate (read_sessions self)) as [keyed|] eqn:Ed;
      cbn [bind] in Hh; [|discriminate].
    inversion Hh as [Hl]. clear Hh.
    destruct (decorate_spec _ _ Ed) as [Hm Hk].
    destruct (slice_to_firstn limit (map snd (sort_desc keyed))) as [n [Hn Hlim]].
    split; [|split].
    + rewrite Hn. apply Sorted_firstn, sorted_sessions; [apply sort_desc_sorted|].
      apply (Permutation_Forall (Permutation_sym (sort_desc_perm keyed))). exact Hk.
    + exists (map snd (sort_desc keyed)). split; [|reflexivity].
      rewrite <- Hm. apply Permutation_map, sort_desc_perm.
    + intros Hpos. rewrite Hn, (Hlim Hpos), length_firstn. lia.
Qed.

(** The amended C8 on a store without a file. *)
Lemma session_round_trip_witness :
  exists s,
    history_after 1 (round_trip no_store) = Ret [s]
    /\ s_question s = Some "What is 2+2?"
    /\ s_final_answer s = Some (Some "Four.")
    /\ List.length (s_states s) = 1%nat.
Proof.
  destruct session_round_trip as [Htrip _].
  apply (Htrip no_store "20261025_021000" "2026-10-25T02:10:00.000001"
               "What is 2+2?"
               [("2026-10-25T02:10:01.000001", "generate_answer", draft_patch "4" 1)]
               "Four." (final_patch "Four.")
               (manager_of
                  (log_all [("2026-10-25T02:10:01.000001", "generate_answer",
                             draft_patch "4" 1)]
                     (snd (create_session "20261025_021000"
                             "2026-10-25T02:10:00.000001" "What is 2+2?" no_store)))));
    [discriminate | constructor | reflexivity].
Defined.

(** C8 as stated fails twice.  A store that already holds a session with a
    later timestamp (the clock was set back an hour) answers
    [get_session_history(1)] with that session, not with the one the round
    trip wrote.  And a negative limit cuts from the end: with two sessions
    stored, a limit of -1 returns one of them. *)
Lemma latest_timestamp_wins :
  history_after 1 (round_trip store_before_clock_change)
  = Ret [plain_session "20261025_023000" "2026-10-25T02:30:00.000001"
                       "What is the capital of France?"]
  /\ exists l,
       history_after (-1) (round_trip store_before_clock_change) = Ret l
       /\ List.length l = 1%nat.
Proof. split; [reflexivity|]. eexists. split; reflexivity. Qed.

(** ** More on whole runs *)

Section RunShape.

Context `{JsonLib}.

Variable w : World.

(** What holds at every configuration of a run holds at the one the run
    ends from. *)
Lemma run_last (I : config -> Prop) :
  (forall c c', I c -> step w c = Next c' -> I c') ->
  forall fuel c final trace,
    I c -> run fuel w c = (Finished final, trace) ->
    exists c', I c' /\ step w c' = End final.
Proof.
  intros Hstep. induction fuel as [|fuel IH]; intros c final trace Hc Hrun;
    [discriminate|].
  rewrite run_succ in Hrun. destruct (step w c) as [c'| |] eqn:Es.
  - inversion Hrun as [[Hfst Htr]].
    apply (IH c' final (snd (run fuel w c'))); [now apply (Hstep c)|].
    rewrite <- Hfst. now destruct (run fuel w c').
  - inversion Hrun; subst. now exists c.
  - discriminate.
Qed.

Lemma step_end_keys (c : config) (final : QAState) :
  step w c = End final ->
  at_node c = node_finalize
  /\ question (state_of c) <> None
  /\ draft_answer (state_of c) <> None
  /\ exists text,
       model w (model_calls c) = ModelReturns text
       /\ final = merge (state_of c) (final_patch text).
Proof.
  unfold step. destruct (at_node c).
  - destruct (generate_answer_node _ _); discriminate.
  - destruct (search_tool_node _ _); discriminate.
  - destruct (evaluate_answer_node _ _); [|discriminate].
    destruct (should_continue _); discriminate.
  - destruct (reflection_node _); discriminate.
  - unfold finalize_answer_node.
    destruct (model w (model_calls c)) as [| |text]; try discriminate;
      (destruct (question (state_of c)); [|discriminate]);
      (destruct (draft_answer (state_of c)); [|discriminate]); [discriminate|].
    intros Hf. inversion Hf.
    repeat split; try discriminate. now exists text.
Qed.

(** No step writes [question] or [max_iterations]. *)
Lemma step_keeps_question (c c' : config) :
  step w c = Next c' ->
  question (state_of c') = question (state_of c)
  /\ max_iterations (state_of c') = max_iterations (state_of c).
Proof.
  intros Es. apply step_next in Es. destruct (at_node c).
  - destruct Es as [_ [draft ->]]. now split.
  - destruct Es as [_ [s [-> _]]]. now split.
  - destruct Es as [[d [r [-> _]]]|[d [-> _]]]; now split.
  - destruct Es as [_ [l ->]]. now split.
  - contradiction.
Qed.

(** X1.  The question and the bound a run was entered with are the ones it
    ends with: no step writes either key, and a run cannot reach [END]
    without a question. *)
Theorem question_and_bound_kept (fuel : nat) (init final : QAState) (trace : list node) :
  invoke fuel w init = (Finished final, trace) ->
  question final = question init
  /\ max_iterations final = max_iterations init
  /\ question init <> None.
Proof.
  intros Hrun.
  destruct (run_last
              (fun c => question (state_of c) = question init
                        /\ max_iterations (state_of c) = max_iterations init))
    with (fuel := fuel)
         (c := {| at_node := node_generate_answer; state_of := init;
                  model_calls := 0; search_calls := 0 |})
         (final := final) (trace := trace)
    as [c [[Hq Hm] Hend]]; [|now split|exact Hrun|].
  - intros c c' [Hq Hm] Es. destruct (step_keeps_question c c' Es) as [Hq' Hm'].
    split; congruence.
  - apply step_end_keys in Hend as (_ & Hsome & _ & text & _ & ->).
    cbn. rewrite <- Hq. repeat split; assumption.
Qed.

(** The evaluate step returns a record with both keys, parsed or made up. *)
Lemma evaluate_answer_node_keys (reply : llm_reply) (st p : QAState) :
  evaluate_answer_node reply st = Ret p ->
  exists d,
    p = evaluation_patch d
    /\ dict_has d "score" = true /\ dict_has d "is_acceptable" = true.
Proof.
  unfold evaluate_answer_node.
  destruct reply as [| |content]; try discriminate;
    (destruct (question st); [|discriminate]);
    (destruct (draft_answer st) as [draft|]; [|discriminate]); [discriminate|].
  destruct (if truthy (extract_json_from_text content)
            then has_required_keys (extract_json_from_text content)
            else Ret false) as [[|]|] eqn:Eu; cbn [bind]; [| |discriminate].
  - destruct (extract_json_from_text content) as [| | | | |d]; try discriminate.
    intros Hp; inversion Hp. exists d. split; [reflexivity|].
    destruct (truthy (PDict d)); [|discriminate].
    unfold has_required_keys, py_contains in Eu. cbn [bind] in Eu.
    destruct (dict_has d "score"); [|discriminate].
    split; [reflexivity | congruence].
  - destruct draft; [|discriminate].
    intros Hp; inversion Hp. eexists. now repeat split.
Qed.

Lemma step_evaluate (c c' : config) :
  at_node c = node_evaluate ->
  step w c = Next c' ->
  exists d r,
    dict_has d "score" = true /\ dict_has d "is_acceptable" = true
    /\ state_of c' = merge (state_of c) (evaluation_patch d)
    /\ should_continue (state_of c') = Ret r
    /\ at_node c' = node_of_route r.
Proof.
  intros Hn. unfold step. rewrite Hn.
  destruct (evaluate_answer_node _ _) as [p|] eqn:E; [|discriminate].
  apply evaluate_answer_node_keys in E as [d (-> & Hs & Ha)].
  destruct (should_continue _) as [r|] eqn:Er; [|discriminate].
  intros Hc; inversion Hc. exists d, r. now repeat split.
Qed.

Lemma has_both_keys_merge (st : QAState) (d : pydict) :
  dict_has d "score" = true -> dict_has d "is_acceptable" = true ->
  has_both_keys (merge st (evaluation_patch d)).
Proof. intros Hs Ha. exists d. now repeat split. Qed.

(** X2.  At [END] the state's evaluation is a record that has the keys
    [score] and [is_acceptable]: the evaluate step stores nothing else, and
    every run evaluates before it ends. *)
Theorem evaluation_has_keys_at_end (fuel : nat) (init final : QAState) (trace : list node) :
  invoke fuel w init = (Finished final, trace) ->
  has_both_keys final.
Proof.
  intros Hrun.
  destruct (run_last
              (fun c => match at_node c with
                        | node_generate_answer | node_evaluate => True
                        | _ => has_both_keys (state_of c)
                        end))
    with (fuel := fuel)
         (c := {| at_node := node_generate_answer; state_of := init;
                  model_calls := 0; search_calls := 0 |})
         (final := final) (trace := trace)
    as [c [Hc Hend]]; [|exact I|exact Hrun|].
  - intros c c' Hc Es. destruct (at_node c) eqn:En.
    + apply step_next in Es. rewrite En in Es. destruct Es as [-> _]. exact I.
    + apply step_next in Es. rewrite En in Es. destruct Es as [-> _]. exact I.
    + destruct (step_evaluate c c' En Es) as [d [r (Hs & Ha & -> & _ & ->)]].
      destruct r; now apply has_both_keys_merge.
    + apply step_next in Es. rewrite En in Es. destruct Es as [-> _]. exact I.
    + apply step_next in Es. now rewrite En in Es.
  - apply step_end_keys in Hend as (Hn & _ & _ & text & _ & ->).
    rewrite Hn in Hc. destruct Hc as [d Hd]. now exists d.
Qed.

Lemma should_continue_finalize (st : QAState) :
  should_continue st = Ret finalize ->
  (bound_of st <= count_of st)%Z \/ accepted st = true.
Proof.
  unfold should_continue, accepted, field_true, score_at_least, record_of,
    count_of, bound_of.
  destruct (_ <=? _)%Z eqn:E; [left; now apply Z.leb_le|]. right.
  destruct (evaluation st) as [[ev|]|]; try discriminate; cbn in *.
  destruct (truthy (get_default ev "is_acceptable" (PBool false))); cbn in *.
  - unfold py_ge_int in *.
    destruct (as_int (get_default ev "score" (PInt 0))); [|discriminate].
    cbn in *. destruct (7 <=? z)%Z; [reflexivity|].
    destruct (truthy _ && _); discriminate.
  - destruct (truthy _ && _); discriminate.
Qed.

(** X3.  A run ends for one of two reasons only: the count has reached the
    bound, or the evaluation it ends with is accepted ([is_acceptable] true
    and a score of 7 or more). *)
Theorem run_ends_at_bound_or_accepted (fuel : nat) (init final : QAState) (trace : list node) :
  invoke fuel w init = (Finished final, trace) ->
  (bound_of final <= count_of final)%Z \/ accepted final = true.
Proof.
  intros Hrun.
  destruct (run_last
              (fun c => at_node c = node_finalize ->
                        (bound_of (state_of c) <= count_of (state_of c))%Z
                        \/ accepted (state_of c) = true))
    with (fuel := fuel)
         (c := {| at_node := node_generate_answer; state_of := init;
                  model_calls := 0; search_calls := 0 |})
         (final := final) (trace := trace)
    as [c [Hc Hend]]; [|discriminate|exact Hrun|].
  - intros c c' _ Es Hfin. destruct (at_node c) eqn:En.
    + apply step_next in Es. rewrite En in Es. destruct Es as [Hn _]. congruence.
    + apply step_next in Es. rewrite En in Es. destruct Es as [Hn _]. congruence.
    + destruct (step_evaluate c c' En Es) as [d [r (_ & _ & _ & Hr & Hn)]].
      rewrite Hn in Hfin. destruct r; try discriminate.
      now apply should_continue_finalize.
    + apply step_next in Es. rewrite En in Es. destruct Es as [Hn _]. congruence.
    + apply step_next in Es. now rewrite En in Es.
  - apply step_end_keys in Hend as (Hn & _ & _ & text & _ & ->).
    exact (Hc Hn).
Qed.

(** A run follows the edges of the graph. *)
Lemma run_trace_from (fuel : nat) (c : config) (final : QAState) (trace : list node) :
  run fuel w c = (Finished final, trace) -> trace_from (at_node c) trace.
Proof.
  revert c trace. induction fuel as [|fuel IH]; intros c trace Hrun; [discriminate|].
  rewrite run_succ in Hrun. destruct (step w c) as [c'| |] eqn:Es.
  - inversion Hrun as [[Hfst Htr]].
    assert (Hrest : trace_from (at_node c') (snd (run fuel w c'))).
    { apply (IH c'). rewrite <- Hfst. now destruct (run fuel w c'). }
    clear Hrun Htr Hfst. set (rest := snd (run fuel w c')) in *.
    apply step_next in Es. destruct (at_node c) eqn:En.
    + destruct Es as [Hn _]. rewrite Hn in Hrest. cbn in Hrest.
      destruct Hrest as [->|[r [rs (Hr & Hrs & ->)]]].
      * exists []. split; [constructor | reflexivity].
      * exists (r :: rs). split; [now constructor | reflexivity].
    + destruct Es as [Hn _]. rewrite Hn in Hrest.
      destruct Hrest as [rs [Hrs ->]]. now exists rs.
    + destruct Es as [[d [r (_ & _ & Hne & Hn)]]|[d [_ Hn]]];
        rewrite Hn in Hrest.
      * right. destruct r; [| |now contradiction Hne]; cbn in Hrest;
          destruct Hrest as [rs [Hrs ->]].
        -- exists search, rs. now repeat split.
        -- exists reflect, rs. now repeat split.
      * left. cbn in Hrest. now rewrite Hrest.
    + destruct Es as [Hn _]. rewrite Hn in Hrest.
      destruct Hrest as [rs [Hrs ->]]. now exists rs.
    + contradiction.
  - inversion Hrun; subst. apply step_end in Es as [Hn _]. now rewrite Hn.
  - discriminate.
Qed.

Lemma times_run_app (n : node) (t1 t2 : list node) :
  times_run n (t1 ++ t2)%list = (times_run n t1 + times_run n t2)%nat.
Proof. induction t1 as [|m t1 IH]; cbn; [reflexivity | rewrite IH; lia]. Qed.

Lemma times_run_rounds (rs : list route) :
  Forall loops_back rs ->
  times_run node_generate_answer (rounds rs) = List.length rs
  /\ times_run node_evaluate (rounds rs) = List.length rs
  /\ times_run node_finalize (rounds rs) = 0%nat
  /\ (times_run node_search (rounds rs) + times_run node_reflect (rounds rs)
      = List.length rs)%nat.
Proof.
  induction 1 as [|r rs Hr Hrs (Hg & He & Hf & Hsr)]; [now repeat split|].
  cbn. fold (rounds rs). rewrite Hg, He, Hf.
  destruct r; cbn; [| |now contradiction Hr]; repeat split; lia.
Qed.

(** X4.  A run that reaches [END] is a sequence of rounds: generate,
    evaluate and then search or reflect, closed by generate, evaluate,
    finalize.  So generate and evaluate run equally often, finalize runs
    once and last, and every search or reflect is followed by another
    round. *)
Theorem run_is_rounds (fuel : nat) (init final : QAState) (trace : list node) :
  invoke fuel w init = (Finished final, trace) ->
  exists rs,
    Forall loops_back rs
    /\ trace = (rounds rs ++ last_round)%list
    /\ times_run node_generate_answer trace = S (List.length rs)
    /\ times_run node_evaluate trace = S (List.length rs)
    /\ times_run node_finalize trace = 1%nat
    /\ (times_run node_search trace + times_run node_reflect trace
        = List.length rs)%nat.
Proof.
  intros Hrun. apply run_trace_from in Hrun. cbn in Hrun.
  destruct Hrun as [rs [Hrs ->]]. exists rs.
  destruct (times_run_rounds rs Hrs) as (Hg & He & Hf & Hsr).
  rewrite !times_run_app, Hg, He, Hf. cbn. repeat split; try assumption; lia.
Qed.

Lemma reflection_node_appends (st p : QAState) :
  reflection_node st = Ret p ->
  exists r, p = reflections_patch (reflections_of st ++ [r])%list.
Proof.
  unfold reflection_node, reflections_of.
  destruct (match evaluation st with Some e => e | None => Some [] end) as [ev|];
    [|discriminate].
  destruct (if truthy (get_default ev "weaknesses" PNone) then _ else _) as [r1|];
    cbn [bind]; [|discriminate].
  destruct (if truthy (get_default ev "suggestions" PNone) then _ else _) as [r2|];
    cbn [bind]; [|discriminate].
  intros Hp. inversion Hp. eauto.
Qed.

Lemma step_reflections (c c' : config) :
  step w c = Next c' ->
  exists added,
    reflections_of (state_of c') = (reflections_of (state_of c) ++ added)%list
    /\ List.length added = times_run node_reflect [at_node c].
Proof.
  intros Es. pose proof Es as Es'. apply step_next in Es'.
  destruct (at_node c) eqn:En.
  - destruct Es' as [_ [draft ->]]. exists []. now rewrite app_nil_r.
  - destruct Es' as [_ [s [-> _]]]. exists []. now rewrite app_nil_r.
  - destruct Es' as [[d [r [-> _]]]|[d [-> _]]]; exists []; now rewrite app_nil_r.
  - unfold step in Es. rewrite En in Es.
    destruct (reflection_node (state_of c)) as [p|] eqn:E; [|discriminate].
    inversion Es. apply reflection_node_appends in E as [r ->].
    now exists [r].
  - contradiction.
Qed.

Lemma run_reflections (fuel : nat) (c : config) (final : QAState) (trace : list node) :
  run fuel w c = (Finished final, trace) ->
  exists added,
    reflections_of final = (reflections_of (state_of c) ++ added)%list
    /\ List.length added = times_run node_reflect trace.
Proof.
  revert c trace. induction fuel as [|fuel IH]; intros c trace Hrun; [discriminate|].
  rewrite run_succ in Hrun. destruct (step w c) as [c'| |] eqn:Es.
  - inversion Hrun as [[Hfst Htr]].
    destruct (IH c' (snd (run fuel w c'))) as [rest [Hrest Hlen]].
    { rewrite <- Hfst. now destruct (run fuel w c'). }
    destruct (step_reflections c c' Es) as [added [Hadd Hl]].
    exists (added ++ rest)%list. split.
    + now rewrite Hrest, Hadd, app_assoc.
    + rewrite length_app, Hl, Hlen. cbn. lia.
  - inversion Hrun; subst. apply step_end in Es as [Hn [text ->]].
    exists []. rewrite Hn, app_nil_r. now split.
  - discriminate.
Qed.

(** X5.  [reflections] only grows, and by one entry per reflect step: at
    [END] it is the list the run was entered with followed by as many new
    entries as the reflect node ran. *)
Theorem reflections_grow_by_reflect_steps
    (fuel : nat) (init final : QAState) (trace : list node) :
  invoke fuel w init = (Finished final, trace) ->
  exists added,
    reflections_of final = (reflections_of init ++ added)%list
    /\ List.length added = times_run node_reflect trace.
Proof. intros Hrun. now apply run_reflections in Hrun. Qed.

Lemma step_model_calls (c c' : config) :
  step w c = Next c' ->
  model_calls c' = (model_calls c + calls_model (at_node c))%nat.
Proof.
  unfold step. destruct (at_node c); cbn [calls_model].
  - destruct (generate_answer_node _ _); [|discriminate].
    intros Hc; inversion Hc. cbn. lia.
  - destruct (search_tool_node _ _); [|discriminate].
    intros Hc; inversion Hc. cbn. lia.
  - destruct (evaluate_answer_node _ _); [|discriminate].
    destruct (should_continue _); [|discriminate].
    intros Hc; inversion Hc. cbn. lia.
  - destruct (reflection_node _); [|discriminate].
    intros Hc; inversion Hc. cbn. lia.
  - destruct (finalize_answer_node _ _); discriminate.
Qed.

Lemma model_calls_in_app (t1 t2 : list node) :
  model_calls_in (t1 ++ t2)%list = (model_calls_in t1 + model_calls_in t2)%nat.
Proof. induction t1 as [|n t1 IH]; cbn; [reflexivity | rewrite IH; lia]. Qed.

Lemma run_final_answer (fuel : nat) (c : config) (final : QAState) (trace : list node) :
  run fuel w c = (Finished final, trace) ->
  exists text,
    model w (model_calls c + model_calls_in trace - 1) = ModelReturns text
    /\ final_answer final = Some (Some text).
Proof.
  revert c trace. induction fuel as [|fuel IH]; intros c trace Hrun; [discriminate|].
  rewrite run_succ in Hrun. destruct (step w c) as [c'| |] eqn:Es.
  - inversion Hrun as [[Hfst Htr]].
    destruct (IH c' (snd (run fuel w c'))) as [text [Hm Hf]].
    { rewrite <- Hfst. now destruct (run fuel w c'). }
    exists text. split; [|assumption].
    rewrite (step_model_calls c c' Es) in Hm. cbn [model_calls_in].
    assert (Hpos : (1 <= model_calls_in (snd (run fuel w c')))%nat).
    { assert (Hfin : fst (run fuel w c') = Finished final)
        by (rewrite <- Hfst; reflexivity).
      destruct (run fuel w c') as [e rest] eqn:Er. cbn in Hfin. subst e.
      apply run_trace_from in Er. cbn [snd].
      destruct (at_node c'); cbn in Er.
      - destruct Er as [rs [_ ->]]. rewrite model_calls_in_app. cbn. lia.
      - destruct Er as [rs [_ ->]]. cbn [model_calls_in].
        rewrite model_calls_in_app. cbn. lia.
      - destruct Er as [->|[r [rs (_ & _ & ->)]]]; cbn; lia.
      - destruct Er as [rs [_ ->]]. cbn [model_calls_in].
        rewrite model_calls_in_app. cbn. lia.
      - rewrite Er. cbn. lia. }
    replace (model_calls c + (calls_model (at_node c)
               + model_calls_in (snd (run fuel w c'))) - 1)%nat
      with (model_calls c + calls_model (at_node c)
               + model_calls_in (snd (run fuel w c')) - 1)%nat by lia.
    exact Hm.
  - inversion Hrun; subst. apply step_end_keys in Es as (Hn & _ & _ & text & Hm & ->).
    exists text. rewrite Hn. cbn. split; [|reflexivity].
    now replace (model_calls c + 1 - 1)%nat with (model_calls c) by lia.
  - discriminate.
Qed.

Lemma model_calls_in_rounds (rs : list route) :
  Forall loops_back rs -> model_calls_in (rounds rs) = (2 * List.length rs)%nat.
Proof.
  induction 1 as [|r rs Hr Hrs IH]; [reflexivity|].
  cbn. fold (rounds rs). rewrite IH.
  destruct r; cbn; [| |now contradiction Hr]; lia.
Qed.

(** X6.  With [k] generate steps, a run that reaches [END] made [2 * k + 1]
    model calls, and its [final_answer] is the text the last of them
    returned (generate and evaluate take the calls before it in turn). *)
Theorem final_answer_is_last_reply
    (fuel : nat) (init final : QAState) (trace : list node) :
  invoke fuel w init = (Finished final, trace) ->
  model_calls_in trace = (2 * times_run node_generate_answer trace + 1)%nat
  /\ exists text,
       model w (2 * times_run node_generate_answer trace) = ModelReturns text
       /\ final_answer final = Some (Some text).
Proof.
  intros Hrun. pose proof Hrun as Hshape.
  apply run_trace_from in Hshape. cbn in Hshape. destruct Hshape as [rs [Hrs Ht]].
  destruct (times_run_rounds rs Hrs) as (Hg & _).
  assert (Hcalls : model_calls_in trace = (2 * List.length rs + 3)%nat).
  { rewrite Ht, model_calls_in_app, (model_calls_in_rounds rs Hrs). cbn. lia. }
  assert (Hgen : times_run node_generate_answer trace = S (List.length rs)).
  { rewrite Ht, times_run_app, Hg. cbn. lia. }
  split; [lia|].
  apply run_final_answer in Hrun as [text [Hm Hf]]. exists text.
  split; [|assumption]. cbn [model_calls] in Hm.
  replace (2 * times_run node_generate_answer trace)%nat
    with (0 + model_calls_in trace - 1)%nat by lia.
  exact Hm.
Qed.

End RunShape.

(** ** How the fallback evaluation drives a run *)

Lemma fallback_score_accepts (len : nat) :
  (7 <=? Z.min 10 (Z.max 5 (Z.of_nat len / 200)))%Z = (1400 <=? len)%nat.
Proof.
  destruct (1400 <=? len)%nat eqn:E.
  - apply Nat.leb_le in E. apply Z.leb_le.
    assert (7 <= Z.of_nat len / 200)%Z by (apply Z.div_le_lower_bound; lia). lia.
  - apply Nat.leb_gt in E. apply Z.leb_gt.
    assert (Z.of_nat len / 200 < 7)%Z by (apply Z.div_lt_upper_bound; lia). lia.
Qed.

Lemma should_continue_on_fallback (st : QAState) (iteration : Z) (len : nat) :
  evaluation st = Some (Some (fallback_evaluation iteration len)) ->
  should_continue st
  = Ret (if (bound_of st <=? count_of st)%Z || (1400 <=? len)%nat
         then finalize else reflect).
Proof.
  intros He. unfold should_continue, count_of, bound_of. rewrite He.
  destruct (_ <=? _)%Z; [reflexivity|]. cbn [orb].
  pose proof (fallback_score_accepts len) as Hscore.
  destruct (1400 <=? len)%nat; unfold fallback_evaluation, get_default; cbn;
    rewrite Hscore; cbn; [now rewrite orb_true_r|].
  now destruct (2 <=? iteration)%Z.
Qed.

Section FallbackRuns.

Context `{JsonLib}.

(** X7.  When the parser gets nothing out of the model's reply, the
    evaluate step stores the fallback record and the router that follows
    never asks for a search: it finalizes when the bound is reached or the
    draft has 1400 characters or more, and reflects otherwise (on a second
    iteration the fallback says [is_acceptable] without the score the router
    also wants). *)
Theorem fallback_routes_by_draft_length
    (content draft : string) (st : QAState) :
  question st <> None ->
  draft_answer st = Some (Some draft) ->
  truthy (extract_json_from_text content) = false ->
  exists patch,
    evaluate_answer_node (ModelReturns content) st = Ret patch
    /\ should_continue (merge st patch)
       = Ret (if (bound_of st <=? count_of st)%Z || (1400 <=? String.length draft)%nat
              then finalize else reflect).
Proof.
  intros Hq Hd Hu. eexists. split.
  - apply evaluate_falls_back; [exact Hq | exact Hd | now left].
  - exact (should_continue_on_fallback
             (merge st (evaluation_patch (fallback_evaluation _ (String.length draft))))
             _ (String.length draft) eq_refl).
Qed.

Lemma reflection_node_on_fallback (st : QAState) (iteration : Z) (len : nat) :
  evaluation st = Some (Some (fallback_evaluation iteration len)) ->
  exists p, reflection_node st = Ret p.
Proof.
  intros He. unfold reflection_node. rewrite He.
  unfold fallback_evaluation, get_default. cbn.
  destruct (7 <=? _)%Z; cbn; eauto.
Qed.

Variable w : World.

Hypothesis every_reply_unreadable : forall n, unreadable (model w n).

Lemma step_fallback_only (c : config) :
  fallback_only c ->
  (forall e, step w c <> Abort e)
  /\ at_node c <> node_search
  /\ (forall c', step w c = Next c' -> fallback_only c').
Proof.
  intros [Hq Hnode]. unfold step.
  destruct (every_reply_unreadable (model_calls c)) as [text [Hm Hu]].
  destruct (at_node c) eqn:En.
  - unfold generate_answer_node. rewrite Hm.
    destruct (question (state_of c)) eqn:Eq; [|contradiction].
    split; [intros e; discriminate|]. split; [discriminate|].
    intros c' Hc; inversion Hc. unfold fallback_only. cbn. rewrite Eq. split; [discriminate | eauto].
  - contradiction.
  - destruct Hnode as [draft Hd]. rewrite Hm.
    rewrite (evaluate_falls_back text (state_of c) draft Hq Hd (or_introl Hu)).
    rewrite (should_continue_on_fallback
               (merge (state_of c) (evaluation_patch (fallback_evaluation _ (String.length draft))))
               _ (String.length draft) eq_refl).
    split; [intros e; destruct (_ || _); discriminate|]. split; [discriminate|].
    intros c' Hc. destruct (_ || _); inversion Hc; unfold fallback_only; cbn;
      (split; [now destruct (question (state_of c))|]).
    + exists draft. now rewrite Hd.
    + eauto.
  - destruct Hnode as [iteration [len He]].
    destruct (reflection_node_on_fallback _ _ _ He) as [p Hp]. rewrite Hp.
    split; [intros e; discriminate|]. split; [discriminate|].
    intros c' Hc; inversion Hc. unfold fallback_only. cbn.
    apply reflection_node_patch in Hp as [l ->]. cbn.
    split; [now destruct (question (state_of c)) | exact I].
  - destruct Hnode as [draft Hd]. unfold finalize_answer_node. rewrite Hm, Hd.
    destruct (question (state_of c)); [|contradiction].
    split; [intros e; discriminate|]. split; discriminate.
Qed.

Lemma run_on_fallbacks (fuel : nat) (c : config) :
  fallback_only c -> (steps_left c <= fuel)%nat ->
  exists final trace,
    run fuel w c = (Finished final, trace)
    /\ times_run node_search trace = 0%nat.
Proof.
  revert c. induction fuel as [|fuel IH]; intros c Hc Hfuel.
  - unfold steps_left in Hfuel. destruct (at_node c); try lia.
    destruct (Z.to_nat _); lia.
  - destruct (step_fallback_only c Hc) as (Hno & Hnode & Hnext).
    rewrite run_succ. destruct (step w c) as [c'| |] eqn:Es.
    + destruct (IH c') as [final [trace [Hrun Hs]]];
        [now apply Hnext | apply step_uses_one in Es; lia |].
      exists final, (at_node c :: trace). rewrite Hrun. cbn [fst snd times_run].
      split; [reflexivity|]. rewrite Hs.
      destruct (at_node c); try reflexivity. now contradiction Hnode.
    + exists final, [at_node c]. split; [reflexivity|]. cbn.
      destruct (at_node c); try reflexivity. now contradiction Hnode.
    + now contradiction (Hno e).
Qed.

(** X8.  A model whose every reply is unreadable for the parser cannot make
    a run fail: with a question in the entry state and three steps allowed
    per iteration left, the run reaches [END], on fallback evaluations
    alone and without a search. *)
Theorem unreadable_replies_never_abort (fuel : nat) (init : QAState) :
  question init <> None ->
  (3 * Nat.max (Z.to_nat (bound_of init - count_of init)) 1 <= fuel)%nat ->
  exists final trace,
    invoke fuel w init = (Finished final, trace)
    /\ times_run node_search trace = 0%nat.
Proof.
  intros Hq Hfuel. apply run_on_fallbacks; [now split | exact Hfuel].
Qed.

End FallbackRuns.

(** X9.  An evaluation that is accepted on the first round ends the run
    after one generate, one evaluate and the finalize step, whatever the
    bound: the count is one more than at entry, the evaluation is the record
    as parsed and the final answer is the third reply of the model. *)
Theorem accepted_first_evaluation_ends_run `{JsonLib}
    (w : World) (fuel : nat) (init : QAState)
    (draft text final_text : string) (d : pydict) (z : Z) :
  question init <> None ->
  model w 0 = ModelReturns draft ->
  model w 1 = ModelReturns text ->
  model w 2 = ModelReturns final_text ->
  extract_json_from_text text = PDict d ->
  truthy (get_default d "is_acceptable" (PBool false)) = true ->
  as_int (get_default d "score" (PInt 0)) = Some z ->
  (7 <= z)%Z ->
  (3 <= fuel)%nat ->
  exists final,
    invoke fuel w init = (Finished final, last_round)
    /\ iteration_count final = Some (count_of init + 1)%Z
    /\ evaluation final = Some (Some d)
    /\ draft_answer final = Some (Some draft)
    /\ final_answer final = Some (Some final_text).
Proof.
  intros Hq H0 H1 H2 Hparse Hacc Hscore Hz Hfuel.
  destruct fuel as [|[|[|fuel]]]; try lia.
  assert (Hkeys : dict_has d "score" = true /\ dict_has d "is_acceptable" = true).
  { unfold dict_has, get_default in *. split.
    - destruct (dict_get d "score"); [reflexivity|]. cbn in Hscore.
      inversion Hscore; subst. lia.
    - destruct (dict_get d "is_acceptable"); [reflexivity | discriminate]. }
  destruct Hkeys as [Hs Ha].
  destruct (question init) as [q|] eqn:Eq; [|contradiction].
  set (st1 := merge init (draft_patch draft (count_of init + 1))).
  set (st2 := merge st1 (evaluation_patch d)).
  set (c0 := {| at_node := node_generate_answer; state_of := init;
                model_calls := 0; search_calls := 0 |}).
  set (c1 := {| at_node := node_evaluate; state_of := st1;
                model_calls := 1; search_calls := 0 |}).
  set (c2 := {| at_node := node_finalize; state_of := st2;
                model_calls := 2; search_calls := 0 |}).
  assert (Hs0 : step w c0 = Next c1).
  { unfold step, c0. cbn [at_node state_of model_calls].
    unfold generate_answer_node. now rewrite H0, Eq. }
  assert (Hs1 : step w c1 = Next c2).
  { unfold step, c1. cbn [at_node state_of model_calls].
    assert (Heval : evaluate_answer_node (model w 1) st1 = Ret (evaluation_patch d)).
    { unfold evaluate_answer_node. rewrite H1.
      replace (question st1) with (Some q) by (unfold st1; cbn; now rewrite Eq).
      replace (draft_answer st1) with (Some (Some draft)) by reflexivity.
      rewrite Hparse, (dict_has_nonempty _ _ Hs).
      unfold has_required_keys, py_contains. cbn [bind]. now rewrite Hs, Ha. }
    rewrite Heval.
    assert (Hroute : should_continue (merge st1 (evaluation_patch d)) = Ret finalize).
    { unfold should_continue.
      replace (evaluation (merge st1 (evaluation_patch d))) with (Some (Some d))
        by reflexivity.
      destruct (_ <=? _)%Z; [reflexivity|].
      rewrite Hacc. unfold py_ge_int. rewrite Hscore. cbn [bind].
      apply Z.leb_le in Hz. now rewrite Hz. }
    now rewrite Hroute. }
  assert (Hs2 : step w c2 = End (merge st2 (final_patch final_text))).
  { unfold step, c2. cbn [at_node state_of model_calls].
    unfold finalize_answer_node. rewrite H2.
    replace (question st2) with (Some q) by (unfold st2, st1; cbn; now rewrite Eq).
    now replace (draft_answer st2) with (Some (Some draft)) by reflexivity. }
  exists (merge st2 (final_patch final_text)). split.
  - unfold invoke. fold c0. rewrite run_succ, Hs0, run_succ, Hs1, run_succ, Hs2.
    reflexivity.
  - now repeat split.
Qed.

(** X9 on a world that accepts at once, with a bound of 5. *)
Lemma accepted_first_evaluation_ends_run_witness :
  exists final,
    invoke (H := python_json) 25 accepting_world (initial_state "Why?" 5)
    = (Finished final, last_round)
    /\ iteration_count final = Some 1%Z
    /\ evaluation final = Some (Some [("score", PInt 9); ("is_acceptable", PBool true)])
    /\ draft_answer final = Some (Some "A draft.")
    /\ final_answer final = Some (Some "A draft.").
Proof.
  apply (accepted_first_evaluation_ends_run (H := python_json)
           accepting_world 25 (initial_state "Why?" 5)
           "A draft." accepting_text "A draft."
           [("score", PInt 9); ("is_acceptable", PBool true)] 9);
    first [discriminate | reflexivity | lia].
Defined.

Section SearchResults.

Context `{JsonLib}.

Variable w : World.

Lemma step_search_results (c c' : config) :
  step w c = Next c' ->
  match at_node c with
  | node_search => exists s, search_results (state_of c') = Some (Some s)
  | _ => search_results (state_of c') = search_results (state_of c)
  end.
Proof.
  intros Es. apply step_next in Es. destruct (at_node c).
  - now destruct Es as [_ [draft ->]].
  - destruct Es as [_ [s [-> _]]]. now exists s.
  - now destruct Es as [[d [r [-> _]]]|[d [-> _]]].
  - now destruct Es as [_ [l ->]].
  - contradiction.
Qed.

Lemma run_search_results (fuel : nat) (c : config) (final : QAState) (trace : list node) :
  run fuel w c = (Finished final, trace) ->
  match times_run node_search trace with
  | O => search_results final = search_results (state_of c)
  | S _ => exists s, search_results final = Some (Some s)
  end.
Proof.
  revert c trace. induction fuel as [|fuel IH]; intros c trace Hrun; [discriminate|].
  rewrite run_succ in Hrun. destruct (step w c) as [c'| |] eqn:Es.
  - inversion Hrun as [[Hfst Htr]].
    assert (Hrest := IH c' (snd (run fuel w c'))).
    rewrite <- Hfst in Hrest. specialize (Hrest (surjective_pairing _)).
    apply step_search_results in Es. cbn [times_run].
    destruct (at_node c); cbn [node_eqb Nat.add];
      destruct (times_run node_search (snd (run fuel w c'))); try congruence.
    destruct Es as [s Hs]. exists s. congruence.
  - inversion Hrun; subst. apply step_end in Es as [Hn [text ->]].
    now rewrite Hn.
  - discriminate.
Qed.

(** X10.  [search_results] is written by the search step alone: a run that
    reaches [END] without a search leaves the key as it was at entry, and a
    run with a search ends with a text in it, be it the results, the
    failure sentinel or the empty text. *)
Theorem search_results_written_by_search
    (fuel : nat) (init final : QAState) (trace : list node) :
  invoke fuel w init = (Finished final, trace) ->
  (times_run node_search trace = 0%nat ->
   search_results final = search_results init)
  /\ ((0 < times_run node_search trace)%nat ->
      exists s, search_results final = Some (Some s)).
Proof.
  intros Hrun. apply run_search_results in Hrun. cbn [state_of] in Hrun.
  destruct (times_run node_search trace); split; intros Hn; try lia; assumption.
Qed.

End SearchResults.

(** ** The run of three rounds, as an instance of the results above *)

(** X1 on the run of three rounds. *)
Lemma question_and_bound_kept_witness :
  question (final_of three_round_run) = Some "Why?"
  /\ max_iterations (final_of three_round_run) = Some 3%Z
  /\ question (initial_state "Why?" 3) <> None.
Proof.
  apply (question_and_bound_kept (H := python_json) failing_search_world 20
           (initial_state "Why?" 3) (final_of three_round_run) (snd three_round_run)).
  vm_compute. reflexivity.
Defined.

(** X2 on the run of three rounds. *)
Lemma evaluation_has_keys_at_end_witness :
  has_both_keys (final_of three_round_run).
Proof.
  apply (evaluation_has_keys_at_end (H := python_json) failing_search_world 20
           (initial_state "Why?" 3) (final_of three_round_run) (snd three_round_run)).
  vm_compute. reflexivity.
Defined.

(** X3 on the run of three rounds, which ends at the bound. *)
Lemma run_ends_at_bound_or_accepted_witness :
  (bound_of (final_of three_round_run) <= count_of (final_of three_round_run))%Z
  \/ accepted (final_of three_round_run) = true.
Proof.
  apply (run_ends_at_bound_or_accepted (H := python_json) failing_search_world 20
           (initial_state "Why?" 3) (final_of three_round_run) (snd three_round_run)).
  vm_compute. reflexivity.
Defined.

(** X4 on the run of three rounds. *)
Lemma run_is_rounds_witness :
  exists rs,
    Forall loops_back rs
    /\ snd three_round_run = (rounds rs ++ last_round)%list
    /\ times_run node_generate_answer (snd three_round_run) = S (List.length rs)
    /\ times_run node_evaluate (snd three_round_run) = S (List.length rs)
    /\ times_run node_finalize (snd three_round_run) = 1%nat
    /\ (times_run node_search (snd three_round_run)
        + times_run node_reflect (snd three_round_run) = List.length rs)%nat.
Proof.
  apply (run_is_rounds (H := python_json) failing_search_world 20
           (initial_state "Why?" 3) (final_of three_round_run) (snd three_round_run)).
  vm_compute. reflexivity.
Defined.

(** X5 on the run of three rounds. *)
Lemma reflections_grow_by_reflect_steps_witness :
  exists added,
    reflections_of (final_of three_round_run)
    = (reflections_of (initial_state "Why?" 3) ++ added)%list
    /\ List.length added = times_run node_reflect (snd three_round_run).
Proof.
  apply (reflections_grow_by_reflect_steps (H := python_json) failing_search_world 20
           (initial_state "Why?" 3) (final_of three_round_run) (snd three_round_run)).
  vm_compute. reflexivity.
Defined.

(** X6 on the run of three rounds. *)
Lemma final_answer_is_last_reply_witness :
  model_calls_in (snd three_round_run)
  = (2 * times_run node_generate_answer (snd three_round_run) + 1)%nat
  /\ exists text,
       model failing_search_world
         (2 * times_run node_generate_answer (snd three_round_run))
       = ModelReturns text
       /\ final_answer (final_of three_round_run) = Some (Some text).
Proof.
  apply (final_answer_is_last_reply (H := python_json) failing_search_world 20
           (initial_state "Why?" 3) (final_of three_round_run) (snd three_round_run)).
  vm_compute. reflexivity.
Defined.

(** X7 on a reply in plain words and a draft of one character. *)
Lemma fallback_routes_by_draft_length_witness :
  exists patch,
    evaluate_answer_node (H := python_json) (ModelReturns "It looks fine to me.")
      drafted_state = Ret patch
    /\ should_continue (merge drafted_state patch) = Ret reflect.
Proof.
  apply (fallback_routes_by_draft_length (H := python_json)
           "It looks fine to me." "4" drafted_state);
    first [discriminate | reflexivity].
Defined.

(** X8 on a model that never answers in JSON, with a bound of 3. *)
Lemma unreadable_replies_never_abort_witness :
  exists final trace,
    invoke (H := python_json) 9 plain_text_world (initial_state "Why?" 3)
    = (Finished final, trace)
    /\ times_run node_search trace = 0%nat.
Proof.
  apply (unreadable_replies_never_abort (H := python_json) plain_text_world).
  - intros n. exists "It looks fine to me.". split; reflexivity.
  - discriminate.
  - vm_compute. lia.
Defined.

(** X10 on the run of three rounds, whose search fails once. *)
Lemma search_results_written_by_search_witness :
  (0 < times_run node_search (snd three_round_run))%nat
  /\ exists s, search_results (final_of three_round_run) = Some (Some s).
Proof.
  split; [vm_compute; lia|].
  destruct (search_results_written_by_search (H := python_json) failing_search_world 20
              (initial_state "Why?" 3) (final_of three_round_run) (snd three_round_run))
    as [_ Hsearched]; [vm_compute; reflexivity|].
  apply Hsearched. vm_compute. lia.
Defined.

(** ** More on the session store *)

Lemma find_session_saved (l : list Session) (sd : Session) (id : string) :
  find_session (saved_sessions l sd) id
  = if s_session_id sd =? id then Some sd else find_session l id.
Proof.
  unfold saved_sessions. induction l as [|x l IH]; cbn.
  - reflexivity.
  - destruct (s_session_id x =? s_session_id sd) eqn:Ex.
    + apply String.eqb_eq in Ex. cbn. rewrite Ex.
      now destruct (s_session_id sd =? id).
    + destruct (replace_session l sd) as [u|]; cbn in *; rewrite IH;
        destruct (s_session_id sd =? id) eqn:Ed; try reflexivity;
        apply String.eqb_eq in Ed; subst id; now rewrite Ex.
Qed.

Lemma length_saved (l : list Session) (sd : Session) :
  List.length (saved_sessions l sd)
  = (List.length l
     + match find_session l (s_session_id sd) with Some _ => 0 | None => 1 end)%nat.
Proof.
  unfold saved_sessions. induction l as [|x l IH]; cbn; [reflexivity|].
  destruct (s_session_id x =? s_session_id sd); cbn; [lia|].
  destruct (replace_session l sd); cbn in *; rewrite IH; lia.
Qed.

Lemma read_after_save (sd : Session) (self : MemoryManager) :
  read_sessions (_save_session sd self) = saved_sessions (read_sessions self) sd.
Proof. reflexivity. Qed.

Lemma load_saved (sd : Session) (self : MemoryManager) :
  _load_session (s_session_id sd) (_save_session sd self) = sd.
Proof.
  unfold _load_session. rewrite read_after_save, find_session_saved.
  now rewrite String.eqb_refl.
Qed.

Lemma load_other (sd : Session) (self : MemoryManager) (id : string) :
  id <> s_session_id sd ->
  _load_session id (_save_session sd self) = _load_session id self.
Proof.
  intros Hid. unfold _load_session.
  rewrite read_after_save, find_session_saved.
  assert (Hne : (s_session_id sd =? id) = false)
    by (apply String.eqb_neq; congruence).
  now rewrite Hne.
Qed.

Lemma length_after_save (sd : Session) (self : MemoryManager) :
  List.length (read_sessions (_save_session sd self))
  = (List.length (read_sessions self)
     + match find_session (read_sessions self) (s_session_id sd) with
       | Some _ => 0
       | None => 1
       end)%nat.
Proof. rewrite read_after_save. apply length_saved. Qed.

(** X11.  What [_save_session] writes, [_load_session] reads back: the
    session saved is the one loaded under its id, the sessions with other
    ids are read as before, and the file gains one session when the id is
    new and none otherwise, so no session is ever dropped. *)
Theorem save_then_load (sd : Session) (self : MemoryManager) :
  _load_session (s_session_id sd) (_save_session sd self) = sd
  /\ (forall id,
        id <> s_session_id sd ->
        _load_session id (_save_session sd self) = _load_session id self)
  /\ List.length (read_sessions (_save_session sd self))
     = (List.length (read_sessions self)
        + match find_session (read_sessions self) (s_session_id sd) with
          | Some _ => 0
          | None => 1
          end)%nat.
Proof.
  split; [apply load_saved | split; [intros id; apply load_other | apply length_after_save]].
Qed.

Lemma create_session_store_is (now_id now_iso q : string) (self : MemoryManager) :
  now_id <> "" ->
  exists l1 l2,
    store_is now_id l1 (plain_session now_id now_iso q) l2
      (snd (create_session now_id now_iso q self)).
Proof.
  intros Hid. unfold create_session, _save_session. cbn [snd].
  fold (plain_session now_id now_iso q).
  change (read_sessions _) with (read_sessions self).
  destruct (replace_session_cases (read_sessions self) (plain_session now_id now_iso q))
    as [[l1 [old [l2 [Hl [H1 Hr]]]]]|[H1 Hr]]; rewrite Hr.
  - exists l1, l2. now repeat split.
  - exists (read_sessions self), []. now repeat split.
Qed.

Lemma log_state_entry (id : string) (l1 l2 : list Session) (s : Session)
    (now_iso node_name : string) (state : QAState) (self self' : MemoryManager) :
  store_is id l1 s l2 self ->
  log_state now_iso node_name state self = Ret self' ->
  exists s',
    store_is id l1 s' l2 self'
    /\ s_states s' = (s_states s ++ [logged_entry now_iso node_name state])%list
    /\ s_metadata s' = logged_metadata state
    /\ s_timestamp s' = s_timestamp s
    /\ s_question s' = s_question s
    /\ s_final_answer s' = s_final_answer s.
Proof.
  intros Hst Hlog. unfold log_state in Hlog.
  pose proof Hst as (Hf & Hc & Hid & Hs & H1).
  rewrite (no_current_session_false id self Hc Hid) in Hlog.
  rewrite (store_load _ _ _ _ _ Hst) in Hlog.
  unfold logged_entry, logged_metadata, record_of, count_of, reflections_of.
  destruct (evaluation state) as [[ev|]|]; [| discriminate |];
    inversion Hlog; eexists;
    (split; [apply (store_save id l1 l2 s); [assumption | exact Hs]|]);
    cbn; now repeat split.
Qed.

Lemma log_all_entries (entries : list (string * string * QAState))
    (id : string) (l1 l2 : list Session) (s : Session) (self self' : MemoryManager) :
  store_is id l1 s l2 self ->
  log_all entries self = Ret self' ->
  exists s',
    store_is id l1 s' l2 self'
    /\ s_states s' = (s_states s ++ map entry_of entries)%list
    /\ s_metadata s'
       = match rev entries with
         | [] => s_metadata s
         | e :: _ => logged_metadata (snd e)
         end
    /\ s_timestamp s' = s_timestamp s
    /\ s_question s' = s_question s
    /\ s_final_answer s' = s_final_answer s.
Proof.
  revert s self. induction entries as [|[[now node_name] state] entries IH];
    intros s self Hst Hlog; cbn [log_all] in Hlog.
  - inversion Hlog; subst. exists s. split; [assumption|].
    cbn. rewrite app_nil_r. now repeat split.
  - destruct (log_state now node_name state self) as [self1|] eqn:E;
      cbn [bind] in Hlog; [|discriminate].
    destruct (log_state_entry _ _ _ _ _ _ _ _ _ Hst E)
      as [s1 (Hst1 & Hs1 & Hm1 & Ht1 & Hq1 & Hf1)].
    destruct (IH s1 self1 Hst1 Hlog) as [s' (Hst' & Hs' & Hm' & Ht' & Hq' & Hf')].
    exists s'. split; [assumption|]. repeat split; try congruence.
    + rewrite Hs', Hs1, <- app_assoc. reflexivity.
    + rewrite Hm'. cbn [rev].
      destruct (rev entries) as [|e rest]; cbn; [now rewrite Hm1 | reflexivity].
Qed.

(** X12.  The states of a session are its log: after [create_session] and a
    sequence of successful [log_state] calls, the session holds one entry
    per call, in call order, each with the clock reading, node name and
    iteration of its call, and its metadata are those of the last state
    logged. *)
Theorem states_are_the_log
    (self : MemoryManager) (now_id now_iso q : string)
    (entries : list (string * string * QAState)) (self1 : MemoryManager) :
  now_id <> "" ->
  log_all entries (snd (create_session now_id now_iso q self)) = Ret self1 ->
  s_states (_load_session now_id self1) = map entry_of entries
  /\ s_question (_load_session now_id self1) = Some q
  /\ s_final_answer (_load_session now_id self1) = Some None
  /\ forall e rest,
       rev entries = e :: rest ->
       s_metadata (_load_session now_id self1) = logged_metadata (snd e).
Proof.
  intros Hid Hlog.
  destruct (create_session_store_is now_id now_iso q self Hid) as [l1 [l2 Hst]].
  destruct (log_all_entries _ _ _ _ _ _ _ Hst Hlog)
    as [s' (Hst' & Hs' & Hm' & _ & Hq' & Hf')].
  assert (Hload : _load_session now_id self1 = s').
  { pose proof Hst' as (_ & Hc & _). rewrite <- (store_load _ _ _ _ _ Hst').
    unfold current_id. now rewrite Hc. }
  rewrite Hload. repeat split; try assumption.
  intros e rest Hrev. now rewrite Hm', Hrev.
Qed.

(** X12 on one logged generate step. *)
Lemma states_are_the_log_witness :
  map entry_node
    (s_states (_load_session "20261025_021000" (manager_of (round_trip_logs no_store))))
  = ["generate_answer"].
Proof.
  destruct (states_are_the_log no_store "20261025_021000" "2026-10-25T02:10:00.000001"
              "What is 2+2?"
              [("2026-10-25T02:10:01.000001", "generate_answer", draft_patch "4" 1)]
              (manager_of (round_trip_logs no_store)))
    as [Hstates _]; [discriminate | reflexivity |].
  now rewrite Hstates.
Defined.

Lemma decorate_raises_key_error (l : list Session) (e : exn) :
  decorate l = Raise e -> e = KeyError.
Proof.
  induction l as [|s l IH]; cbn; [discriminate|].
  unfold timestamp_key. destruct (s_timestamp s); cbn [bind].
  - destruct (decorate l); cbn [bind]; [discriminate|].
    intros He. inversion He; subst. now apply IH.
  - intros He. now inversion He.
Qed.

Lemma decorate_without_timestamp (l : list Session) (s : Session) :
  In s l -> s_timestamp s = None -> decorate l = Raise KeyError.
Proof.
  intros Hin Hs.
  destruct (decorate l) as [keyed|e] eqn:Ed.
  - exfalso. apply decorate_spec in Ed as [Hm Hk]. rewrite <- Hm in Hin.
    apply in_map_iff in Hin as [p [Hp Hin]].
    rewrite Forall_forall in Hk. specialize (Hk p Hin).
    unfold keyed_by_timestamp in Hk. rewrite Hp, Hs in Hk. discriminate.
  - now rewrite (decorate_raises_key_error l e Ed).
Qed.

Lemma find_session_in (l : list Session) (id : string) (s : Session) :
  find_session l id = Some s -> In s l.
Proof.
  induction l as [|x l IH]; cbn; [discriminate|].
  destruct (s_session_id x =? id); [intros Hs; inversion Hs; now left|].
  intros Hs. right. now apply IH.
Qed.

(** X13.  A [log_state] call for a current session that the file does not
    hold succeeds, and stores a record made of the id, the one entry and
    the metadata, without timestamp or question; from then on
    [get_session_history] raises [KeyError], whatever the limit. *)
Theorem log_without_stored_session_breaks_history
    (self : MemoryManager) (id now_iso node_name : string) (state : QAState)
    (limit : Z) :
  current_session_id self = Some id ->
  id <> "" ->
  find_session (read_sessions self) id = None ->
  evaluation state <> Some None ->
  exists self',
    log_state now_iso node_name state self = Ret self'
    /\ s_timestamp (_load_session id self') = None
    /\ s_question (_load_session id self') = None
    /\ s_states (_load_session id self') = [logged_entry now_iso node_name state]
    /\ get_session_history limit self' = Raise KeyError.
Proof.
  intros Hc Hid Hfind Hev. unfold log_state.
  rewrite (no_current_session_false id self Hc Hid).
  unfold current_id. rewrite Hc.
  assert (Hload : _load_session id self
                  = {| s_session_id := id; s_timestamp := None; s_question := None;
                       s_states := []; s_final_answer := None;
                       s_metadata := mkMetadata None None None;
                       s_complete_state := None |})
    by (unfold _load_session; now rewrite Hfind).
  rewrite Hload. cbn [s_session_id s_timestamp s_question s_states s_final_answer
                      s_complete_state app].
  destruct (match evaluation state with Some e => e | None => Some [] end)
    as [ev|] eqn:Eev; [|destruct (evaluation state) as [[?|]|]; congruence].
  eexists. split; [reflexivity|].
  match goal with |- context [_save_session ?sd self] => set (saved := sd) end.
  pose proof (load_saved saved self) as Hback.
  change (s_session_id saved) with id in Hback. rewrite Hback.
  split; [reflexivity|]. split; [reflexivity|]. split.
  - unfold saved, logged_entry, record_of, count_of, reflections_of. cbn.
    destruct (evaluation state) as [[?|]|]; inversion Eev; reflexivity.
  - unfold get_session_history.
    rewrite (decorate_without_timestamp _ saved); [reflexivity| |reflexivity].
    apply (find_session_in _ (s_session_id saved)).
    rewrite read_after_save, find_session_saved. now rewrite String.eqb_refl.
Qed.

(** X13 on a manager whose file was removed after [create_session]. *)
Lemma log_without_stored_session_breaks_history_witness :
  exists self',
    log_state "2026-10-25T02:10:01.000001" "generate_answer" (draft_patch "4" 1)
      orphaned_manager = Ret self'
    /\ s_timestamp (_load_session "20261025_021000" self') = None
    /\ s_question (_load_session "20261025_021000" self') = None
    /\ s_states (_load_session "20261025_021000" self')
       = [logged_entry "2026-10-25T02:10:01.000001" "generate_answer" (draft_patch "4" 1)]
    /\ get_session_history 5 self' = Raise KeyError.
Proof.
  apply (log_without_stored_session_breaks_history orphaned_manager);
    first [reflexivity | discriminate].
Defined.

(** X14.  A session id is the creation time to the second, so a second
    [create_session] within the same second takes the place of the first
    session: its logged states and its final answer are gone, and the file
    holds as many sessions as before. *)
Theorem create_with_same_id_overwrites
    (self : MemoryManager) (id iso1 q1 iso2 q2 answer : string)
    (entries : list (string * string * QAState)) (full_state : QAState)
    (self1 : MemoryManager) :
  id <> "" ->
  log_all entries (snd (create_session id iso1 q1 self)) = Ret self1 ->
  let before := save_final_answer answer full_state self1 in
  let after := snd (create_session id iso2 q2 before) in
  s_final_answer (_load_session id before) = Some (Some answer)
  /\ List.length (s_states (_load_session id before)) = List.length entries
  /\ _load_session id after = plain_session id iso2 q2
  /\ List.length (read_sessions after) = List.length (read_sessions before).
Proof.
  intros Hid Hlog before after.
  destruct (create_session_store_is id iso1 q1 self Hid) as [l1 [l2 Hst]].
  destruct (log_all_entries _ _ _ _ _ _ _ Hst Hlog) as [s1 (Hst1 & Hs1 & _)].
  destruct (save_final_answer_store _ _ _ _ answer full_state _ Hst1)
    as [s2 (Hst2 & _ & _ & Hs2 & Hf2)].
  fold before in Hst2.
  assert (Hload : _load_session id before = s2).
  { pose proof Hst2 as (_ & Hc & _). rewrite <- (store_load _ _ _ _ _ Hst2).
    unfold current_id. now rewrite Hc. }
  rewrite Hload. split; [assumption|]. split.
  { rewrite Hs2, Hs1. cbn. now rewrite length_map. }
  set (again := {| session_file := session_file before;
                   current_session_id := Some id |}).
  assert (Hafter : after = _save_session (plain_session id iso2 q2) again)
    by reflexivity.
  pose proof (load_saved (plain_session id iso2 q2) again) as Hback.
  pose proof (length_after_save (plain_session id iso2 q2) again) as Hlen.
  cbn [s_session_id plain_session] in Hback, Hlen.
  rewrite Hafter. split; [exact Hback|].
  rewrite Hlen. change (read_sessions again) with (read_sessions before).
  pose proof Hst2 as (Hfile & _ & _ & Hids & Hothers).
  assert (Hread : read_sessions before = (l1 ++ s2 :: l2)%list)
    by (unfold read_sessions; now rewrite Hfile).
  rewrite Hread, (find_session_split id l1 l2 s2 Hothers Hids). lia.
Qed.

(** X14 on the round trip, followed by a second question in the same
    second. *)
Lemma create_with_same_id_overwrites_witness :
  _load_session "20261025_021000"
    (snd (create_session "20261025_021000" "2026-10-25T02:10:00.900000"
            "And 3+3?" (manager_of (round_trip no_store))))
  = plain_session "20261025_021000" "2026-10-25T02:10:00.900000" "And 3+3?".
Proof.
  destruct (create_with_same_id_overwrites no_store "20261025_021000"
              "2026-10-25T02:10:00.000001" "What is 2+2?"
              "2026-10-25T02:10:00.900000" "And 3+3?" "Four."
              [("2026-10-25T02:10:01.000001", "generate_answer", draft_patch "4" 1)]
              (final_patch "Four.") (manager_of (round_trip_logs no_store)))
    as (_ & _ & Hnew & _); [discriminate | reflexivity |].
  exact Hnew.
Defined.

(** ** The driver [run_qa_workflow] *)

Section Driver.

Context `{JsonLib}.

Variable w : World.

Lemma run_node_loggable (c : config) (patch : QAState) :
  run_node w c = Ret patch -> evaluation patch <> Some None.
Proof.
  unfold run_node. destruct (at_node c); intros Hp.
  - apply generate_answer_node_patch in Hp as [draft ->]. discriminate.
  - apply search_tool_node_patch in Hp as [s [-> _]]. discriminate.
  - apply evaluate_answer_node_patch in Hp as [d ->]. discriminate.
  - apply reflection_node_patch in Hp as [l ->]. discriminate.
  - apply finalize_answer_node_patch in Hp as [t ->]. discriminate.
Qed.

Lemma step_run_node (c : config) :
  match step w c with
  | Next _ => exists patch, run_node w c = Ret patch
  | End final =>
      exists text,
        run_node w c = Ret (final_patch text)
        /\ final = merge (state_of c) (final_patch text)
  | Abort e =>
      run_node w c = Raise e \/ exists patch, run_node w c = Ret patch
  end.
Proof.
  unfold step, run_node. destruct (at_node c).
  - destruct (generate_answer_node _ _); eauto.
  - destruct (search_tool_node _ _); eauto.
  - destruct (evaluate_answer_node _ _); [|eauto].
    destruct (should_continue _); eauto.
  - destruct (reflection_node _); eauto.
  - destruct (finalize_answer_node _ _) as [p|] eqn:E; [|eauto].
    apply finalize_answer_node_patch in E as [text ->]. eauto.
Qed.

Lemma run_node_raise (c : config) (e : exn) :
  run_node w c = Raise e -> step w c = Abort e.
Proof.
  unfold step, run_node. destruct (at_node c); now intros ->.
Qed.

Lemma stream_succ (fuel : nat) (c : config) :
  stream (S fuel) w c
  = match run_node w c, step w c with
    | Ret patch, Next c' =>
        ((at_node c, patch) :: fst (stream fuel w c'), snd (stream fuel w c'))
    | Ret patch, End _ => ([(at_node c, patch)], StreamDone)
    | Ret _, Abort e => ([], StreamRaised e)
    | Raise e, _ => ([], StreamRaised e)
    end.
Proof.
  cbn [stream]. destruct (run_node w c); [|reflexivity].
  destruct (step w c); [now destruct (stream fuel w c0)| |]; reflexivity.
Qed.

(** The chunks of a run that reaches [END]: one per node of the trace, the
    last one the patch of the finalize step. *)
Lemma stream_finished (fuel : nat) (c : config) (final : QAState) (trace : list node) :
  run fuel w c = (Finished final, trace) ->
  exists chunks text,
    stream fuel w c = ((chunks ++ [(node_finalize, final_patch text)])%list, StreamDone)
    /\ (map fst chunks ++ [node_finalize])%list = trace
    /\ Forall loggable chunks
    /\ final_answer final = Some (Some text).
Proof.
  revert c trace. induction fuel as [|fuel IH]; intros c trace Hrun; [discriminate|].
  rewrite run_succ in Hrun. rewrite stream_succ.
  pose proof (step_run_node c) as Hnode.
  destruct (step w c) as [c'| |] eqn:Es.
  - inversion Hrun as [[Hfst Htr]]. destruct Hnode as [patch Hp]. rewrite Hp.
    destruct (IH c' (snd (run fuel w c'))) as [chunks [text (Hs & Ht & Hl & Hf)]].
    { rewrite <- Hfst. now destruct (run fuel w c'). }
    exists ((at_node c, patch) :: chunks), text. rewrite Hs. cbn.
    repeat split; try assumption.
    + now rewrite Ht.
    + constructor; [|assumption]. now apply run_node_loggable in Hp.
  - inversion Hrun; subst. destruct Hnode as [text [Hp Hfinal]]. rewrite Hp.
    apply step_end in Es as [Hn _]. rewrite Hn.
    exists [], text. rewrite Hfinal. now repeat split.
  - discriminate.
Qed.



End Driver.

Lemma log_state_succeeds (id : string) (l1 l2 : list Session) (s : Session)
    (now_iso name : string) (state : QAState) (self : MemoryManager) :
  store_is id l1 s l2 self ->
  evaluation state <> Some None ->
  exists self', log_state now_iso name state self = Ret self'.
Proof.
  intros (Hf & Hc & Hid & Hs & H1) Hev. unfold log_state.
  rewrite (no_current_session_false id self Hc Hid).
  destruct (evaluation state) as [[ev|]|]; [eauto | now contradiction Hev | eauto].
Qed.

Lemma log_chunks_store (clock : Clock) (chunks : list (node * QAState)) :
  Forall loggable chunks ->
  forall (k : nat) (result : option QAState) (id : string)
         (l1 l2 : list Session) (s : Session) (self : MemoryManager),
    store_is id l1 s l2 self ->
    exists self' s',
      log_chunks clock k chunks result self
      = (Some (match rev chunks with [] => result | ch :: _ => Some (snd ch) end), self')
      /\ store_is id l1 s' l2 self'
      /\ s_states s' = (s_states s ++ chunk_entries clock k chunks)%list
      /\ s_metadata s'
         = match rev chunks with
           | [] => s_metadata s
           | ch :: _ => logged_metadata (snd ch)
           end
      /\ s_timestamp s' = s_timestamp s
      /\ s_question s' = s_question s
      /\ s_final_answer s' = s_final_answer s.
Proof.
  induction 1 as [|[n patch] chunks Hok Hrest IH]; intros k result id l1 l2 s self Hst.
  - exists self, s. cbn. rewrite app_nil_r.
    split; [reflexivity|]. split; [assumption|]. now repeat split.
  - cbn [log_chunks chunk_entries].
    destruct (log_state_succeeds _ _ _ _ (clock_log clock k) (node_name n) patch _ Hst Hok)
      as [self1 Hlog].
    rewrite Hlog.
    destruct (log_state_entry _ _ _ _ _ _ _ _ _ Hst Hlog)
      as [s1 (Hst1 & Hs1 & Hm1 & Ht1 & Hq1 & Hf1)].
    destruct (IH (S k) (Some patch) id l1 l2 s1 self1 Hst1)
      as [self' [s' (Hl & Hst' & Hs' & Hm' & Ht' & Hq' & Hf')]].
    exists self', s'. rewrite Hl. cbn [rev].
    split; [|split; [assumption|]].
    + destruct (rev chunks); reflexivity.
    + repeat split; try congruence.
      * rewrite Hs', Hs1, <- app_assoc. reflexivity.
      * rewrite Hm'. destruct (rev chunks); cbn; [exact Hm1 | reflexivity].
Qed.

Lemma save_final_answer_keeps (id : string) (l1 l2 : list Session) (s : Session)
    (answer : string) (full_state : QAState) (self : MemoryManager) :
  store_is id l1 s l2 self ->
  exists s',
    store_is id l1 s' l2 (save_final_answer answer full_state self)
    /\ s_timestamp s' = s_timestamp s
    /\ s_question s' = s_question s
    /\ s_states s' = s_states s
    /\ s_metadata s' = s_metadata s
    /\ s_final_answer s' = Some (Some answer).
Proof.
  intros Hst. unfold save_final_answer.
  pose proof Hst as (Hf & Hc & Hid & Hs & H1).
  rewrite (no_current_session_false id self Hc Hid), (store_load _ _ _ _ _ Hst).
  eexists. split; [apply (store_save id l1 l2 s); [assumption | exact Hs]|].
  cbn. now repeat split.
Qed.

Lemma chunk_entries_nodes (clock : Clock) (k : nat) (chunks : list (node * QAState)) :
  map entry_node (chunk_entries clock k chunks) = map node_name (map fst chunks).
Proof.
  revert k. induction chunks as [|[n p] chunks IH]; intros k; cbn;
    [reflexivity | now rewrite IH].
Qed.

Lemma chunk_entries_stamped (clock : Clock) (k : nat) (chunks : list (node * QAState)) :
  (forall i, str_contains "T" (clock_log clock i) = true) ->
  forallb (fun e => str_contains "T" (entry_timestamp e))
          (chunk_entries clock k chunks) = true.
Proof.
  intros Hclock. revert k. induction chunks as [|[n p] chunks IH]; intros k;
    cbn [chunk_entries forallb logged_entry entry_timestamp]; [reflexivity|].
  now rewrite Hclock, IH.
Qed.

Lemma store_current (id : string) (l1 l2 : list Session) (s : Session)
    (self : MemoryManager) :
  store_is id l1 s l2 self ->
  _load_session id self = s /\ current_id self = id.
Proof.
  intros Hst. pose proof Hst as (_ & Hc & _).
  assert (Hid : current_id self = id) by (unfold current_id; now rewrite Hc).
  split; [|assumption]. rewrite <- Hid. exact (store_load _ _ _ _ _ Hst).
Qed.

Section DriverResults.

Context `{JsonLib}.

(** X15.  When the graph reaches [END], [run_qa_workflow] returns the chunk
    streamed last, which is the patch of the finalize step and holds
    [final_answer] alone: the iteration count, the evaluation and the
    reflections of the run are not in it.  The session it leaves has one
    state per node that ran, in order, the final answer unless that is
    empty, and the metadata of the last chunk logged: no iteration, no
    search, no reflection. *)
Theorem run_qa_workflow_returns_last_patch
    (clock : Clock) (fuel : nat) (w : World) (q : string) (bound : Z)
    (file : option (list Session)) (final : QAState) (trace : list node) :
  clock_id clock <> "" ->
  (forall k, str_contains "T" (clock_log clock k) = true) ->
  invoke fuel w (initial_state q bound) = (Finished final, trace) ->
  exists text,
    final_answer final = Some (Some text)
    /\ returned (run_qa_workflow clock fuel w q bound file) = Some (final_patch text)
    /\ exists s,
         exported (run_qa_workflow clock fuel w q bound file) = Some s
         /\ _load_session (clock_id clock)
              (memory_after (run_qa_workflow clock fuel w q bound file)) = s
         /\ map entry_node (s_states s) = map node_name trace
         /\ s_question s = Some q
         /\ s_final_answer s = (if text =? "" then Some None else Some (Some text))
         /\ s_metadata s = mkMetadata (Some 0%Z) (Some false) (Some 0%nat).
Proof.
  intros Hid Hclock Hrun. unfold invoke in Hrun.
  destruct (stream_finished w _ _ _ _ Hrun) as [chunks [text (Hs & Ht & Hl & Hf)]].
  exists text. split; [assumption|].
  unfold run_qa_workflow. rewrite Hs.
  set (memory0 := {| session_file := file; current_session_id := None |}).
  destruct (create_session_store_is (clock_id clock) (clock_iso clock) q memory0 Hid)
    as [l1 [l2 Hst]].
  assert (Hall : Forall loggable (chunks ++ [(node_finalize, final_patch text)])%list).
  { apply Forall_app. split; [assumption|]. repeat constructor. discriminate. }
  destruct (log_chunks_store clock _ Hall 0 None _ _ _ _ _ Hst)
    as [m1 [s1 (Hlog & Hst1 & Hs1 & Hm1 & Ht1 & Hq1 & Hf1)]].
  rewrite Hlog. rewrite rev_app_distr in *. cbn [rev app snd] in *.
  cbn [final_answer final_patch].
  assert (Hentries :
    map entry_node (s_states s1) = map node_name trace).
  { rewrite Hs1. cbn [plain_session s_states app].
    rewrite chunk_entries_nodes, map_app. cbn [map fst]. now rewrite Ht. }
  assert (Hstamped :
    forallb (fun e => str_contains "T" (entry_timestamp e)) (s_states s1) = true).
  { rewrite Hs1. cbn [plain_session s_states app]. now apply chunk_entries_stamped. }
  assert (Hsummary : forall m s,
    store_is (clock_id clock) l1 s l2 m ->
    s_question s = Some q -> s_timestamp s = Some (clock_iso clock) ->
    s_metadata s = logged_metadata (final_patch text) ->
    s_states s = s_states s1 ->
    print_session_summary m = None).
  { intros m s Hm Hq Hts Hmeta Hstates. unfold print_session_summary.
    pose proof Hm as (_ & Hc & _).
    rewrite (no_current_session_false _ m Hc Hid).
    destruct (store_current _ _ _ _ _ Hm) as [Hload Hcur].
    rewrite Hcur, Hload, Hq, Hts, Hmeta, Hstates. cbn. now rewrite Hstamped. }
  destruct (text =? "") eqn:Etext; cbn [negb].
  - rewrite (Hsummary m1 s1 Hst1); try assumption; try reflexivity.
    cbn [returned exported memory_after].
    destruct (store_current _ _ _ _ _ Hst1) as [Hload Hcur].
    split; [reflexivity|]. exists s1. rewrite Hcur, Hload.
    repeat split; assumption.
  - destruct (save_final_answer_keeps _ _ _ _ text (final_patch text) _ Hst1)
      as [s2 (Hst2 & Ht2 & Hq2 & Hs2 & Hm2 & Hf2)].
    rewrite (Hsummary _ s2 Hst2);
      [| now rewrite Hq2 | now rewrite Ht2 | now rewrite Hm2 | assumption].
    cbn [returned exported memory_after].
    destruct (store_current _ _ _ _ _ Hst2) as [Hload Hcur].
    split; [reflexivity|]. exists s2. rewrite Hcur, Hload, Hs2, Hq2, Hm2.
    repeat split; assumption.
Qed.


End DriverResults.

(** X15 on the run of three rounds, started on an empty directory. *)
Lemma run_qa_workflow_returns_last_patch_witness :
  exists text,
    final_answer (final_of three_round_run) = Some (Some text)
    /\ returned (run_qa_workflow (H := python_json) sample_clock 20
                   failing_search_world "Why?" 3 None) = Some (final_patch text)
    /\ exists s,
         exported (run_qa_workflow (H := python_json) sample_clock 20
                     failing_search_world "Why?" 3 None) = Some s
         /\ _load_session (clock_id sample_clock)
              (memory_after (run_qa_workflow (H := python_json) sample_clock 20
                               failing_search_world "Why?" 3 None)) = s
         /\ map entry_node (s_states s) = map node_name (snd three_round_run)
         /\ s_question s = Some "Why?"
         /\ s_final_answer s = (if text =? "" then Some None else Some (Some text))
         /\ s_metadata s = mkMetadata (Some 0%Z) (Some false) (Some 0%nat).
Proof.
  apply (run_qa_workflow_returns_last_patch (H := python_json) sample_clock 20
           failing_search_world "Why?" 3 None (final_of three_round_run)
           (snd three_round_run)).
  - discriminate.
  - intros k. reflexivity.
  - vm_compute. reflexivity.
Defined.


Section RunLength.

Context `{JsonLib}.
Variable w : World.



Lemma times_run_loops (rs : list route) :
  Forall loops_back rs ->
  times_run node_generate_answer (rounds rs ++ last_round)
  = S (times_run node_reflect (rounds rs ++ last_round)
       + times_run node_search (rounds rs ++ last_round)).
Proof.
  intros Hrs. destruct (times_run_rounds rs Hrs) as (Hg & _ & _ & Hsr).
  rewrite !times_run_app, Hg. cbn. lia.
Qed.

(** X17.  The count at [END] is one more than the loops taken: it grows by
    one for the first draft, by one per reflection added and by one per
    search.  So a run entered without a count ends with a count of one or
    more, and of two or more once it has added a reflection. *)
Theorem count_is_reflections_and_searches
    (fuel : nat) (init final : QAState) (trace : list node) :
  invoke fuel w init = (Finished final, trace) ->
  (List.length (reflections_of init) <= List.length (reflections_of final))%nat
  /\ count_of final
     = (count_of init + 1
        + Z.of_nat (List.length (reflections_of final) - List.length (reflections_of init))
        + Z.of_nat (times_run node_search trace))%Z.
Proof.
  intros Hrun. unfold invoke in Hrun.
  destruct (run_counter w _ _ _ _ Hrun) as (Hcount & _).
  destruct (run_reflections w _ _ _ _ Hrun) as [added [Hadd Hlen]].
  apply run_trace_from in Hrun. cbn in Hrun. destruct Hrun as [rs [Hrs ->]].
  cbn [state_of] in *. rewrite Hadd, length_app, Hcount, (times_run_loops rs Hrs), Hlen.
  split; lia.
Qed.


End RunLength.

(** X17 on the run of three rounds: one search, one reflection. *)
Lemma count_is_reflections_and_searches_witness :
  (List.length (reflections_of (initial_state "Why?" 3))
   <= List.length (reflections_of (final_of three_round_run)))%nat
  /\ count_of (final_of three_round_run)
     = (count_of (initial_state "Why?" 3) + 1
        + Z.of_nat (List.length (reflections_of (final_of three_round_run))
                    - List.length (reflections_of (initial_state "Why?" 3)))
        + Z.of_nat (times_run node_search (snd three_round_run)))%Z.
Proof.
  apply (count_is_reflections_and_searches (H := python_json) failing_search_world 20
           (initial_state "Why?" 3) (final_of three_round_run) (snd three_round_run)).
  vm_compute. reflexivity.
Defined.

